(** * devenv-harness runner: slot allocation and run lifecycle

    A shallow embedding of [pkgs/devenv-harness-runner/runner.py] and the
    properties of its slot pool, its command pipeline and its teardown.

    Python values are rendered as follows: [int] is [Z], [str] and [bytes]
    are [string], a [pathlib.Path] is the list of its [parts], a raised
    exception is the [Raise] branch of [result], and every function that
    touches the operating system threads a [World] explicitly: the
    directories and files, the kernel's table of [flock]s, standard output
    and the trace of what the run did.

    What the model leaves to its [Platform]: which external programs can be
    started, what they print, return and do to the file system; what other
    processes do while this one sleeps; [Path.resolve], the clock, the
    process id and the JSON parser. What it leaves out: external programs
    that never end, and I/O errors of the file system calls themselves
    (permissions, a full disk, a file where a directory is expected), so
    that [mkdir], [open] and [write_text] always succeed. A lock file is
    identified with its path. *)

From Stdlib Require Import ZArith String Ascii List Lia DecimalString DecimalZ.
From stdpp Require Import base gmap strings list.

Open Scope string_scope.
Open Scope Z_scope.
Open Scope list_scope.

(** ** Strings and integers *)

(** [str(n)] for a Python [int]: the decimal numeral, with a leading minus
    sign for negative numbers. *)
Definition str_int (n : Z) : string := NilZero.string_of_int (Z.to_int n).

(** [f"{n:02d}"]: the decimal numeral padded with zeros on the left up to a
    width of two characters (a wider numeral is left as it is). *)
Definition fmt_02d (n : Z) : string :=
  let s := str_int n in
  if (String.length s <? 2)%nat then "0" +:+ s else s.

(** ** pathlib.PurePosixPath *)

(** A path is the tuple [Path.parts]: the root first when the path is
    absolute, then the components. *)
Definition Path : Type := list string.

Definition slash : ascii := "/"%char.

(** [s.split("/")] *)
Fixpoint segments (s : string) : list string :=
  match s with
  | EmptyString => [EmptyString]
  | String c s' =>
      if Ascii.eqb c slash then EmptyString :: segments s'
      else match segments s' with
           | seg :: rest => String c seg :: rest
           | [] => [String c EmptyString]
           end
  end.

Definition keep_segment (seg : string) : bool :=
  negb (String.eqb seg "") && negb (String.eqb seg ".").

Definition rel_parts (s : string) : list string :=
  List.filter keep_segment (segments s).

(** The root of a POSIX path: exactly two leading slashes are kept, any
    other number of them collapses to one. *)
Definition root_of (s : string) : list string :=
  match s with
  | String a (String b (String c _)) =>
      if Ascii.eqb a slash then
        if Ascii.eqb b slash then
          if Ascii.eqb c slash then ["/"] else ["//"]
        else ["/"]
      else []
  | String a (String b EmptyString) =>
      if Ascii.eqb a slash then
        if Ascii.eqb b slash then ["//"] else ["/"]
      else []
  | String a EmptyString => if Ascii.eqb a slash then ["/"] else []
  | EmptyString => []
  end.

(** [Path(s)] *)
Definition path_of_str (s : string) : Path := root_of s ++ rel_parts s.

Definition is_absolute_str (s : string) : bool :=
  match s with
  | String a _ => Ascii.eqb a slash
  | EmptyString => false
  end.

(** [p / s]: an absolute right operand replaces the left one. *)
Definition joinpath (p : Path) (s : string) : Path :=
  if is_absolute_str s then path_of_str s else p ++ rel_parts s.

Notation "p // s" := (joinpath p s) (at level 40, left associativity).

Definition is_anchor (c : string) : bool :=
  String.eqb c "/" || String.eqb c "//".

(** [str(p)] *)
Definition str_path (p : Path) : string :=
  match p with
  | [] => "."
  | c :: rest =>
      if is_anchor c then c +:+ String.concat "/" rest
      else String.concat "/" (c :: rest)
  end.

(** [p.parent] *)
Definition parent (p : Path) : Path :=
  match p with
  | [] => []
  | [c] => if is_anchor c then [c] else []
  | _ => removelast p
  end.

(** The path itself and all its ancestors, as [mkdir(parents=True)] visits
    them. *)
Fixpoint ancestors_and_self (p : Path) : list Path :=
  match p with
  | [] => []
  | c :: rest => [c] :: List.map (cons c) (ancestors_and_self rest)
  end.

(** ** Configuration *)

Record HarnessConfig : Type := mkConfig {
  slots : Z;
  container_prefix : string;
  state_dir : Path;
  artifacts_dir_default : string
}.

Definition CONFIG_PATH : Path := path_of_str "/etc/devenv-harness/config.json".

(** [slot_paths(cfg, slot)] returns [(name, slot_dir, work_dir, lock_path)]. *)
Definition slot_paths (cfg : HarnessConfig) (slot : Z)
  : string * Path * Path * Path :=
  let name := container_prefix cfg +:+ str_int slot in
  let slot_dir := state_dir cfg // "slots" // str_int slot in
  let work_dir := slot_dir // "work" in
  let lock_path := slot_dir // "slot.lock" in
  (name, slot_dir, work_dir, lock_path).

Definition slot_name (cfg : HarnessConfig) (slot : Z) : string :=
  let '(name, _, _, _) := slot_paths cfg slot in name.
Definition slot_dir (cfg : HarnessConfig) (slot : Z) : Path :=
  let '(_, d, _, _) := slot_paths cfg slot in d.
Definition slot_work_dir (cfg : HarnessConfig) (slot : Z) : Path :=
  let '(_, _, w, _) := slot_paths cfg slot in w.
Definition slot_lock_path (cfg : HarnessConfig) (slot : Z) : Path :=
  let '(_, _, _, l) := slot_paths cfg slot in l.

(** ** Facts about numerals and paths *)

Definition is_digit (c : ascii) : bool :=
  let n := nat_of_ascii c in (48 <=? n)%nat && (n <=? 57)%nat.

Fixpoint no_slash (s : string) : bool :=
  match s with
  | EmptyString => true
  | String c s' => negb (Ascii.eqb c slash) && no_slash s'
  end.

Fixpoint all_digits (s : string) : bool :=
  match s with
  | EmptyString => true
  | String c s' => is_digit c && all_digits s'
  end.

(** ** Exceptions and results *)

Inductive exn : Type :=
  | RuntimeError (msg : string)
  | OSError (argv : list string)
  | FileNotFoundError (p : Path)
  | JSONDecodeError
  | KeyError (key : string)
  | TypeError
  | ValueError
  | AttributeError.

(** The outcome of a call: a value, a raised exception, or [Pending] when
    the coroutine is still suspended after the passes granted to it. *)
Inductive result (A : Type) : Type :=
  | Ok (a : A)
  | Raise (e : exn)
  | Pending.
Arguments Ok {A} a.
Arguments Raise {A} e.
Arguments Pending {A}.

Definition result_bind {A B} (r : result A) (k : A -> result B) : result B :=
  match r with
  | Ok a => k a
  | Raise e => Raise e
  | Pending => Pending
  end.

(** ** Parsed JSON *)

#[local] Set Warnings "-register-all".

Inductive json : Type :=
  | JNull
  | JBool (b : bool)
  | JInt (n : Z)
  | JFloat (repr : string)
  | JString (s : string)
  | JArray (items : list json)
  | JObject (members : list (string * json)).

(** The members of an object as [json.loads] leaves them in the [dict]: a
    later member replaces an earlier one with the same key. *)
Fixpoint dict_lookup (key : string) (members : list (string * json))
  : option json :=
  match members with
  | [] => None
  | (k, v) :: rest =>
      match dict_lookup key rest with
      | Some v' => Some v'
      | None => if String.eqb k key then Some v else None
      end
  end.

(** [data[key]] *)
Definition getitem (data : json) (key : string) : result json :=
  match data with
  | JObject members =>
      match dict_lookup key members with
      | Some v => Ok v
      | None => Raise (KeyError key)
      end
  | _ => Raise TypeError
  end.

(** [data.get(key, default)] *)
Definition dict_get (data : json) (key : string) (default : json)
  : result json :=
  match data with
  | JObject members =>
      match dict_lookup key members with
      | Some v => Ok v
      | None => Ok default
      end
  | _ => Raise AttributeError
  end.

(** [Path(v)] accepts a string only. *)
Definition path_of_json (v : json) : result Path :=
  match v with
  | JString s => Ok (path_of_str s)
  | _ => Raise TypeError
  end.

(** ** The world *)

(** What the runner does to its surroundings, in program order. *)
Inductive event : Type :=
  | EFlock (p : Path) (granted : bool)
  | EUnlock (p : Path)
  | ERun (argv : list string) (log_file : option Path) (returncode : option Z)
  | EWrite (p : Path) (text : string)
  | ESleep (ms : Z).

(** The host as one run sees it: the directories and regular files, the
    kernel's table of exclusive [flock]s (open file description, path), the
    next unused open file description, the bytes written to standard output
    and the trace of the run. *)
Record World : Type := mkWorld {
  w_dirs : gset Path;
  w_files : gmap Path string;
  w_flocks : list (nat * Path);
  w_next_fd : nat;
  w_stdout : string;
  w_trace : list event
}.

(** A child process that ran to completion: everything it wrote to the merged
    stdout/stderr pipe, its return code, and the file system it leaves. *)
Record Completed : Type := mkCompleted {
  c_output : string;
  c_returncode : Z;
  c_dirs : gset Path;
  c_files : gmap Path string
}.

(** What the runner takes from its platform: the effective user, the
    behaviour of external programs ([None] when the program cannot be
    started), what the other processes of the host do while this one sleeps,
    [Path.resolve], the clock and process id behind [run_id], [json.loads],
    and the Python built-ins [int] on strings and floats and [str] on the
    values whose text is not modelled here. *)
Record Platform : Type := mkPlatform {
  euid_is_root : bool;
  spawn : list string -> option Path -> World -> option Completed;
  others : World -> World;
  resolve : Path -> Path;
  run_id : World -> string;
  json_loads : string -> option json;
  py_int : json -> Z + exn;
  py_str : json -> string
}.

(** [int(v)] *)
Definition int_json (P : Platform) (v : json) : result Z :=
  match v with
  | JInt n => Ok n
  | JBool b => Ok (if b then 1 else 0)
  | JString _ | JFloat _ =>
      match py_int P v with
      | inl n => Ok n
      | inr e => Raise e
      end
  | JNull | JArray _ | JObject _ => Raise TypeError
  end.

(** [str(v)] *)
Definition str_json (P : Platform) (v : json) : string :=
  match v with
  | JString s => s
  | JInt n => str_int n
  | _ => py_str P v
  end.

Definition log_event (e : event) (w : World) : World :=
  mkWorld (w_dirs w) (w_files w) (w_flocks w) (w_next_fd w) (w_stdout w)
          (w_trace w ++ [e]).

Definition set_fs (d : gset Path) (f : gmap Path string) (w : World) : World :=
  mkWorld d f (w_flocks w) (w_next_fd w) (w_stdout w) (w_trace w).

Definition set_flocks (t : list (nat * Path)) (w : World) : World :=
  mkWorld (w_dirs w) (w_files w) t (w_next_fd w) (w_stdout w) (w_trace w).

(** [p.mkdir(parents=True, exist_ok=True)] *)
Definition mkdir_p (p : Path) (w : World) : World :=
  set_fs (w_dirs w ∪ list_to_set (ancestors_and_self p)) (w_files w) w.

(** [p.exists()] *)
Definition path_exists (p : Path) (w : World) : bool :=
  bool_decide (p ∈ w_dirs w) || bool_decide (is_Some (w_files w !! p)).

(** [open(p, "a+")] and [open(p, "ab")] create the file when it is missing
    and leave an existing one as it is. *)
Definition touch (p : Path) (w : World) : World :=
  match w_files w !! p with
  | Some _ => w
  | None => set_fs (w_dirs w) (<[p := ""]> (w_files w)) w
  end.

(** [with open(p, "ab") as f: f.write(line)] *)
Definition append_file (p : Path) (line : string) (w : World) : World :=
  set_fs (w_dirs w)
         (<[p := default "" (w_files w !! p) +:+ line]> (w_files w)) w.

(** [p.write_text(text)] *)
Definition write_text (p : Path) (text : string) (w : World) : World :=
  log_event (EWrite p text)
            (set_fs (w_dirs w) (<[p := text]> (w_files w)) w).

(** [sys.stdout.buffer.write(line); sys.stdout.flush()] *)
Definition write_stdout (line : string) (w : World) : World :=
  mkWorld (w_dirs w) (w_files w) (w_flocks w) (w_next_fd w)
          (w_stdout w +:+ line) (w_trace w).

(** [await asyncio.sleep(ms / 1000)]: the other processes run meanwhile. *)
Definition sleep (P : Platform) (ms : Z) (w : World) : World :=
  others P (log_event (ESleep ms) w).

(** ** SlotLock *)

Record SlotLock : Type := mkSlotLock {
  lock_path : Path;
  fd : option nat
}.

(** [SlotLock(lock_path)] *)
Definition new_lock (p : Path) : SlotLock := mkSlotLock p None.

Definition locked (p : Path) (w : World) : bool :=
  bool_decide (p ∈ (w_flocks w).*2).

(** [SlotLock.try_lock]: [flock(LOCK_EX | LOCK_NB)] is granted when no open
    file description holds a lock on the file, and raises [BlockingIOError]
    otherwise. *)
Definition try_lock (lk : SlotLock) (w : World) : bool * SlotLock * World :=
  let w1 := mkdir_p (parent (lock_path lk)) w in
  let w2 := touch (lock_path lk) w1 in
  let f := w_next_fd w2 in
  let w3 := mkWorld (w_dirs w2) (w_files w2) (w_flocks w2) (S f)
                    (w_stdout w2) (w_trace w2) in
  if locked (lock_path lk) w3 then
    (false, mkSlotLock (lock_path lk) None,
     log_event (EFlock (lock_path lk) false) w3)
  else
    (true, mkSlotLock (lock_path lk) (Some f),
     log_event (EFlock (lock_path lk) true)
               (set_flocks (w_flocks w3 ++ [(f, lock_path lk)]) w3)).

(** [SlotLock.unlock] *)
Definition unlock (lk : SlotLock) (w : World) : SlotLock * World :=
  match fd lk with
  | None => (lk, w)
  | Some f =>
      (mkSlotLock (lock_path lk) None,
       log_event (EUnlock (lock_path lk))
                 (set_flocks (List.filter (fun e => negb (Nat.eqb (fst e) f))
                                          (w_flocks w)) w))
  end.

(** ** Stateful computations *)

Definition M (A : Type) : Type := World -> result A * World.

Definition ret {A} (a : A) : M A := fun w => (Ok a, w).

Definition raise {A} (e : exn) : M A := fun w => (Raise e, w).

Definition bind {A B} (m : M A) (k : A -> M B) : M B :=
  fun w =>
    match m w with
    | (Ok a, w') => k a w'
    | (Raise e, w') => (Raise e, w')
    | (Pending, w') => (Pending, w')
    end.

(** An effect that cannot fail. *)
Definition effect (f : World -> World) : M unit := fun w => (Ok tt, f w).

Notation "x <- m ;; k" := (bind m (fun x => k))
  (at level 62, m at next level, right associativity).
Notation "m ;;; k" := (bind m (fun _ => k))
  (at level 62, right associativity).

(** [try: body finally: cleanup]. The clean-up runs after the body whether
    it returned or raised; an exception of the clean-up replaces the outcome
    of the body. *)
Definition after_cleanup {A} (r : result A) (rc : result unit) : result A :=
  match rc with
  | Ok _ => r
  | Raise e => Raise e
  | Pending => Pending
  end.

Definition try_finally {A} (body : M A) (cleanup : M unit) : M A :=
  fun w =>
    match body w with
    | (Pending, w1) => (Pending, w1)
    | (r, w1) => let '(rc, w2) := cleanup w1 in (after_cleanup r rc, w2)
    end.

(** ** Process runner *)

Definition newline : ascii := ascii_of_nat 10.

(** The successive results of [readline()] on a stream holding [s]: each
    line with its terminator, the last one possibly without. *)
Fixpoint readlines (s : string) : list string :=
  match s with
  | EmptyString => []
  | String c s' =>
      if Ascii.eqb c newline then String c EmptyString :: readlines s'
      else match readlines s' with
           | l :: ls => String c l :: ls
           | [] => [String c EmptyString]
           end
  end.

(** One turn of the loop body of [run_cmd] after the [if not line] test. *)
Definition forward_line (log_file : option Path) (line : string) (w : World)
  : World :=
  match log_file with
  | Some f => append_file f line (mkdir_p (parent f) w)
  | None => write_stdout line w
  end.

(** The [while True] loop of [run_cmd] over what [readline] returns; an
    empty result ends it. *)
Fixpoint drain (lines : list string) (log_file : option Path) (w : World)
  : World :=
  match lines with
  | [] => w
  | line :: rest =>
      if String.eqb line "" then w
      else drain rest log_file (forward_line log_file line w)
  end.

Section Runner.

Variable P : Platform.

(** [is_root()] *)
Definition is_root : bool := euid_is_root P.

Definition with_root (cmd : list string) : list string :=
  if is_root then cmd else ["sudo"; "--"] ++ cmd.

Definition run_cmd (cmd : list string) (cwd : option Path)
    (log_file : option Path) : M Z :=
  fun w =>
    match spawn P cmd cwd w with
    | None => (Raise (OSError cmd), log_event (ERun cmd log_file None) w)
    | Some c =>
        let w1 := set_fs (c_dirs c) (c_files c) w in
        let w2 := drain (readlines (c_output c)) log_file w1 in
        (Ok (c_returncode c),
         log_event (ERun cmd log_file (Some (c_returncode c))) w2)
    end.

Definition rsync_argv (src dst : Path) : list string :=
  with_root ["rsync"; "-a"; "--delete"; "--safe-links";
             "--exclude"; ".direnv/";
             "--exclude"; "result";
             "--exclude"; ".git/objects/";
             str_path src +:+ "/"; str_path dst +:+ "/"].

Definition rsync_project (src dst log : Path) : M unit :=
  effect (mkdir_p dst) ;;;
  rc <- run_cmd (rsync_argv src dst) None (Some log) ;;
  if negb (rc =? 0) then
    raise (RuntimeError ("rsync failed with exit code " +:+ str_int rc))
  else ret tt.

Definition start_argv (name : string) : list string :=
  with_root ["nixos-container"; "start"; name].

Definition container_start (name : string) (log : Path) : M unit :=
  rc <- run_cmd (start_argv name) None (Some log) ;;
  if negb (rc =? 0) then
    raise (RuntimeError ("failed to start container " +:+ name))
  else ret tt.

Definition stop_argv (name : string) : list string :=
  with_root ["nixos-container"; "stop"; name].

Definition container_stop (name : string) (log : Path) : M unit :=
  run_cmd (stop_argv name) None (Some log) ;;; ret tt.

Definition run_argv (name shell_cmd : string) : list string :=
  let inner := "cd /work && " +:+ shell_cmd in
  with_root ["nixos-container"; "run"; name; "--"; "bash"; "-lc"; inner].

Definition container_run (name shell_cmd : string) (log : Path) : M Z :=
  run_cmd (run_argv name shell_cmd) None (Some log).

(** ** Slot manager *)

(** [range(a, b)] *)
Definition py_range (a b : Z) : list Z :=
  List.map (fun i => a + Z.of_nat i) (seq 0 (Z.to_nat (b - a))).

(** One pass of the [for] loop of [acquire_slot] over the slots still to
    try: the first lock that is granted ends it. *)
Fixpoint scan (cfg : HarnessConfig) (candidates : list Z) (w : World)
  : option (Z * SlotLock) * World :=
  match candidates with
  | [] => (None, w)
  | slot :: rest =>
      let '(_, _, _, lock_path) := slot_paths cfg slot in
      let lk := new_lock lock_path in
      let '(ok, lk', w') := try_lock lk w in
      if ok then (Some (slot, lk'), w') else scan cfg rest w'
  end.

(** [acquire_slot]; [fuel] bounds the number of passes of the outer
    [while True]. *)
Fixpoint acquire_slot (fuel : nat) (cfg : HarnessConfig) (wait : bool)
  : M (Z * SlotLock) :=
  fun w =>
    match fuel with
    | O => (Pending, w)
    | S fuel' =>
        match scan cfg (py_range 1 (slots cfg + 1)) w with
        | (Some r, w') => (Ok r, w')
        | (None, w') =>
            if negb wait then
              (Raise (RuntimeError "no free slots available"), w')
            else acquire_slot fuel' cfg wait (sleep P 200 w')
        end
    end.

(** ** Configuration loading *)

Definition load_config : M HarnessConfig :=
  fun w =>
    match w_files w !! CONFIG_PATH with
    | None => (Raise (FileNotFoundError CONFIG_PATH), w)
    | Some text =>
        match json_loads P text with
        | None => (Raise JSONDecodeError, w)
        | Some data =>
            (result_bind (result_bind (getitem data "slots") (int_json P))
               (fun n =>
             result_bind (getitem data "containerPrefix")
               (fun prefix =>
             result_bind (result_bind (getitem data "stateDir") path_of_json)
               (fun dir =>
             result_bind (dict_get data "artifactsDirDefault"
                                   (JString "./artifacts"))
               (fun art =>
             Ok (mkConfig n (str_json P prefix) dir (str_json P art)))))), w)
        end
    end.

(** ** Run orchestrator *)

(** The parsed command line. *)
Record Args : Type := mkArgs {
  arg_project : string;
  arg_artifacts : option string;
  arg_cmd : list string;
  arg_no_wait : bool;
  arg_keep_workdir : bool
}.

(** [args.artifacts or default] *)
Definition artifacts_or (a : option string) (default : string) : string :=
  match a with
  | Some s => if String.eqb s "" then default else s
  | None => default
  end.

Definition rm_argv (work_dir : Path) : list string :=
  with_root ["rm"; "-rf"; str_path work_dir].

Definition cmd_log (out_dir : Path) (idx : Z) : Path :=
  out_dir // ("cmd-" +:+ fmt_02d idx +:+ ".log").

Definition failed_text (idx : Z) (cmd : string) (rc : Z) : string :=
  "Command " +:+ str_int idx +:+ " failed: " +:+ cmd +:+
  String newline ("exit=" +:+ str_int rc +:+ String newline "").

Definition ok_text : string := "success" +:+ String newline "".

(** The [for idx, cmd in enumerate(args.cmd, start=idx)] loop of [main]
    with what follows it inside the [try]. *)
Fixpoint run_commands (name : string) (out_dir : Path) (idx : Z)
    (cmds : list string) : M Z :=
  match cmds with
  | [] => effect (write_text (out_dir // "OK") ok_text) ;;; ret 0
  | cmd :: rest =>
      rc <- container_run name cmd (cmd_log out_dir idx) ;;
      if negb (rc =? 0) then
        effect (write_text (out_dir // "FAILED") (failed_text idx cmd rc)) ;;;
        ret rc
      else run_commands name out_dir (idx + 1) rest
  end.

(** The body of the [try] of [main]. *)
Definition pipeline (args : Args) (project : Path) (name : string)
    (work_dir out_dir : Path) : M Z :=
  let lifecycle_log := out_dir // "lifecycle.log" in
  let rsync_log := out_dir // "rsync.log" in
  (fun w =>
     if path_exists work_dir w
     then (run_cmd (rm_argv work_dir) None (Some lifecycle_log) ;;; ret tt) w
     else ret tt w) ;;;
  effect (mkdir_p work_dir) ;;;
  rsync_project project work_dir rsync_log ;;;
  container_start name lifecycle_log ;;;
  run_commands name out_dir 1 (arg_cmd args).

(** The [finally] of [main]. *)
Definition teardown (args : Args) (name : string) (work_dir out_dir : Path)
    (lk : SlotLock) : M unit :=
  let lifecycle_log := out_dir // "lifecycle.log" in
  container_stop name lifecycle_log ;;;
  (if negb (arg_keep_workdir args)
   then run_cmd (rm_argv work_dir) None (Some lifecycle_log) ;;; ret tt
   else ret tt) ;;;
  effect (fun w => snd (unlock lk w)).

(** [out_dir] of the run that starts in [w]. *)
Definition run_out_dir (cfg : HarnessConfig) (artifacts_root : Path)
    (slot : Z) (w : World) : Path :=
  let '(name, _, _, _) := slot_paths cfg slot in
  let rid := run_id P w in
  artifacts_root // name // rid.

(** [main] from the point where the slot is held. *)
Definition run_in_slot (args : Args) (cfg : HarnessConfig)
    (artifacts_root project : Path) (slot : Z) (lk : SlotLock) : M Z :=
  fun w =>
    let '(name, _, work_dir, _) := slot_paths cfg slot in
    let out_dir := run_out_dir cfg artifacts_root slot w in
    (effect (mkdir_p out_dir) ;;;
     try_finally (pipeline args project name work_dir out_dir)
                 (teardown args name work_dir out_dir lk)) w.

Definition main (fuel : nat) (args : Args) : M Z :=
  cfg <- load_config ;;
  let artifacts_root :=
    resolve P (path_of_str (artifacts_or (arg_artifacts args)
                                         (artifacts_dir_default cfg))) in
  let project := resolve P (path_of_str (arg_project args)) in
  r <- acquire_slot fuel cfg (negb (arg_no_wait args)) ;;
  run_in_slot args cfg artifacts_root project (fst r) (snd r).

(** [raise SystemExit(asyncio.run(main()))]: the status the parent process
    sees is the low byte of the returned code, and 1 when [main] ends with
    an exception that nothing catches. *)
Definition exit_status (r : result Z) : option Z :=
  match r with
  | Ok rc => Some (rc mod 256)
  | Raise _ => Some 1
  | Pending => None
  end.

Definition script (fuel : nat) (args : Args) (w : World) : option Z * World :=
  let '(r, w') := main fuel args w in (exit_status r, w').

End Runner.

(** ** A concrete host for examples *)

Module Demo.

Definition dq : string := String (ascii_of_nat 34) "".

Definition quoted (s : string) : string := dq +:+ s +:+ dq.

(** A configuration file without [artifactsDirDefault]. *)
Definition config_text : string :=
  "{" +:+ quoted "slots" +:+ ": 2, " +:+
  quoted "containerPrefix" +:+ ": " +:+ quoted "dev" +:+ ", " +:+
  quoted "stateDir" +:+ ": " +:+ quoted "/var/lib/harness" +:+ "}".

Definition config_members : list (string * json) :=
  [("slots", JInt 2); ("containerPrefix", JString "dev");
   ("stateDir", JString "/var/lib/harness")].

Definition config_json : json := JObject config_members.

Definition cfg : HarnessConfig :=
  mkConfig 2 "dev" ["/"; "var"; "lib"; "harness"] "./artifacts".

(** The built-ins on the values the examples use. *)
Definition loads (text : string) : option json :=
  if String.eqb text config_text then Some config_json
  else if String.eqb text "{}" then Some (JObject [])
  else None.

Definition int_of (v : json) : Z + exn :=
  match v with
  | JString "2" => inl 2
  | _ => inr ValueError
  end.

Definition str_of (v : json) : string :=
  match v with
  | JBool true => "True"
  | JBool false => "False"
  | JNull => "None"
  | JFloat r => r
  | _ => "<object>"
  end.

(** A host run by root on which an external program, told by its argument
    vector, either cannot be started or prints some output and returns a
    code; external programs leave the file system as it is and nobody else
    touches the locks. *)
Definition host (behaviour : list string -> option (string * Z)) : Platform :=
  mkPlatform true
    (fun argv _ w =>
       match behaviour argv with
       | Some (out, rc) => Some (mkCompleted out rc (w_dirs w) (w_files w))
       | None => None
       end)
    (fun w => w)
    (fun p => p)
    (fun _ => "20240101-120000-4242")
    loads int_of str_of.


(** Every program succeeds silently. *)
Definition all_fine (argv : list string) : option (string * Z) :=
  Some ("", 0).



(** Inside the container, [echo A] prints a line, [false] returns 1. *)
Definition shell (argv : list string) : option (string * Z) :=
  match argv with
  | ["nixos-container"; "run"; _; "--"; "bash"; "-lc"; inner] =>
      if String.eqb inner "cd /work && false" then Some ("", 1)
      else if String.eqb inner "cd /work && echo A"
           then Some ("A" +:+ String newline "", 0)
      else if String.eqb inner "cd /work && echo C"
           then Some ("C" +:+ String newline "", 0)
      else Some ("", 0)
  | _ => Some ("", 0)
  end.

Definition empty_world : World := mkWorld ∅ ∅ [] 3 "" [].

(** A host with the configuration file in place and nothing else. *)
Definition fresh_world : World :=
  mkWorld ∅ {[ CONFIG_PATH := config_text ]} [] 3 "" [].

(** A host whose configuration file holds an empty object. *)
Definition unconfigured_world : World :=
  mkWorld ∅ {[ CONFIG_PATH := "{}" ]} [] 3 "" [].

Definition args (cmds : list string) (no_wait keep : bool) : Args :=
  mkArgs "." None cmds no_wait keep.

(** The same host with slot 1 held, and with both slots held. *)
Definition one_held : World :=
  snd (try_lock (new_lock (slot_lock_path cfg 1)) fresh_world).

Definition both_held : World :=
  snd (try_lock (new_lock (slot_lock_path cfg 2)) one_held).

(** The command list of the scenario: the second command fails. *)
Definition three_cmds : Args := args ["echo A"; "false"; "echo C"] false false.

(** The world in which [main] holds slot 1 on the fresh host. *)
Definition slot1_world (P : Platform) : World :=
  snd (acquire_slot P 1 cfg true fresh_world).

Definition lock1 : Path := ["/"; "var"; "lib"; "harness"; "slots"; "1"; "slot.lock"].

Definition out1 : Path := ["artifacts"; "dev1"; "20240101-120000-4242"].

End Demo.

(** ** Observations *)

(** The bytes of a file, an absent file reading as empty. *)
Definition content (f : Path) (w : World) : string :=
  default "" (w_files w !! f).

(** Every slot of the pool is locked by somebody. *)
Definition all_held (cfg : HarnessConfig) (w : World) : Prop :=
  forall j, 1 <= j <= slots cfg -> locked (slot_lock_path cfg j) w = true.

(** The lock file and the directories above it are in place, as the
    [try_lock] of the holder left them. *)
Definition lock_file_present (p : Path) (w : World) : Prop :=
  is_Some (w_files w !! p) /\
  forall d, In d (ancestors_and_self (parent p)) -> d ∈ w_dirs w.

(** The trace of a refused and of a granted attempt on a slot. *)
Definition refused (cfg : HarnessConfig) (slot : Z) : event :=
  EFlock (slot_lock_path cfg slot) false.

Definition granted (cfg : HarnessConfig) (slot : Z) : event :=
  EFlock (slot_lock_path cfg slot) true.

(** ** The pool as all processes of the host see it *)

(** A live [SlotLock]: the process that owns the object, the slot it was
    made for, and the object itself after [try_lock] returned [True]. *)
Record Holder : Type := mkHolder {
  h_pid : nat;
  h_slot : Z;
  h_lock : SlotLock
}.

Record System : Type := mkSystem {
  sys_world : World;
  sys_live : list Holder
}.

(** The kernel drops the lock of an open file description that is closed. *)
Definition close_fd (lk : SlotLock) (w : World) : World :=
  match fd lk with
  | None => w
  | Some f =>
      set_flocks (List.filter (fun e => negb (Nat.eqb (fst e) f)) (w_flocks w)) w
  end.

(** The steps the processes of the host take, interleaved in any order:
    any process tries any slot of the pool as [acquire_slot] does, a holder
    unlocks, the kernel closes the descriptor of a holder whose process has
    ended, and anything else a run does leaves the lock table alone and
    never reuses an open file description. *)
Inductive sys_step (cfg : HarnessConfig) : System -> System -> Prop :=
  | step_try pid slot w live ok lk w' :
      1 <= slot <= slots cfg ->
      try_lock (new_lock (slot_lock_path cfg slot)) w = (ok, lk, w') ->
      sys_step cfg (mkSystem w live)
        (mkSystem w' (if ok then live ++ [mkHolder pid slot lk] else live))
  | step_unlock w l1 h l2 :
      sys_step cfg (mkSystem w (l1 ++ h :: l2))
        (mkSystem (snd (unlock (h_lock h) w)) (l1 ++ l2))
  | step_close w l1 h l2 :
      sys_step cfg (mkSystem w (l1 ++ h :: l2))
        (mkSystem (close_fd (h_lock h) w) (l1 ++ l2))
  | step_other w w' live :
      w_flocks w' = w_flocks w ->
      (w_next_fd w <= w_next_fd w')%nat ->
      sys_step cfg (mkSystem w live) (mkSystem w' live).

(** The host before any run: nobody holds a lock. *)
Definition sys_initial (s : System) : Prop :=
  w_flocks (sys_world s) = [] /\ sys_live s = [].

(** What the proof of mutual exclusion maintains. *)
Record sys_inv (cfg : HarnessConfig) (s : System) : Prop := mkInv {
  inv_fresh : forall e, In e (w_flocks (sys_world s)) ->
                        (fst e < w_next_fd (sys_world s))%nat;
  inv_paths : NoDup (List.map snd (w_flocks (sys_world s)));
  inv_fds : NoDup (List.map (fun h => fd (h_lock h)) (sys_live s));
  inv_live : forall h, In h (sys_live s) ->
               1 <= h_slot h <= slots cfg /\
               exists f, h_lock h = mkSlotLock (slot_lock_path cfg (h_slot h)) (Some f) /\
                         In (f, slot_lock_path cfg (h_slot h))
                            (w_flocks (sys_world s))
}.

(** ** Traces of the command loop *)

Section Traces.

Variable P : Platform.

(** The trace of command number [idx] of a run. *)
Definition cmd_event (name : string) (out_dir : Path) (idx : Z)
    (cmd : string) (rc : option Z) : event :=
  ERun (run_argv P name cmd) (Some (cmd_log out_dir idx)) rc.

(** The trace of commands numbered [idx], [idx + 1], ... that all returned
    zero. *)
Fixpoint passed_events (name : string) (out_dir : Path) (idx : Z)
    (cmds : list string) : list event :=
  match cmds with
  | [] => []
  | cmd :: rest =>
      cmd_event name out_dir idx cmd (Some 0)
        :: passed_events name out_dir (idx + 1) rest
  end.

(** The traces of the stages of a run, all logging where [main] tells
    them to. *)
Definition rm_event (work_dir out_dir : Path) (rc : option Z) : event :=
  ERun (rm_argv P work_dir) (Some (out_dir // "lifecycle.log")) rc.

Definition rsync_event (project work_dir out_dir : Path) (rc : option Z)
  : event :=
  ERun (rsync_argv P project work_dir) (Some (out_dir // "rsync.log")) rc.

Definition start_event (name : string) (out_dir : Path) (rc : option Z)
  : event :=
  ERun (start_argv P name) (Some (out_dir // "lifecycle.log")) rc.

Definition stop_event (name : string) (out_dir : Path) (rc : option Z)
  : event :=
  ERun (stop_argv P name) (Some (out_dir // "lifecycle.log")) rc.

(** How the command loop can end, with the trace it leaves. *)
Inductive commands_shape (name : string) (out_dir : Path)
    (cmds : list string) : result Z -> list event -> Prop :=
  | cmds_all_passed :
      commands_shape name out_dir cmds (Ok 0)
        (passed_events name out_dir 1 cmds
           ++ [EWrite (out_dir // "OK") ok_text])
  | cmds_failed k cmd rc :
      cmds !! k = Some cmd -> rc <> 0 ->
      commands_shape name out_dir cmds (Ok rc)
        (passed_events name out_dir 1 (take k cmds)
           ++ [cmd_event name out_dir (1 + Z.of_nat k) cmd (Some rc);
               EWrite (out_dir // "FAILED")
                      (failed_text (1 + Z.of_nat k) cmd rc)])
  | cmds_not_started k cmd :
      cmds !! k = Some cmd ->
      commands_shape name out_dir cmds (Raise (OSError (run_argv P name cmd)))
        (passed_events name out_dir 1 (take k cmds)
           ++ [cmd_event name out_dir (1 + Z.of_nat k) cmd None]).

(** How the stages after the workspace is prepared can end. *)
Inductive stages_shape (args : Args) (project : Path) (name : string)
    (work_dir out_dir : Path) : result Z -> list event -> Prop :=
  | stages_sync_not_started :
      stages_shape args project name work_dir out_dir
        (Raise (OSError (rsync_argv P project work_dir)))
        [rsync_event project work_dir out_dir None]
  | stages_sync_failed rc :
      rc <> 0 ->
      stages_shape args project name work_dir out_dir
        (Raise (RuntimeError ("rsync failed with exit code " +:+ str_int rc)))
        [rsync_event project work_dir out_dir (Some rc)]
  | stages_start_not_started :
      stages_shape args project name work_dir out_dir
        (Raise (OSError (start_argv P name)))
        [rsync_event project work_dir out_dir (Some 0);
         start_event name out_dir None]
  | stages_start_failed rc :
      rc <> 0 ->
      stages_shape args project name work_dir out_dir
        (Raise (RuntimeError ("failed to start container " +:+ name)))
        [rsync_event project work_dir out_dir (Some 0);
         start_event name out_dir (Some rc)]
  | stages_commands r evs :
      commands_shape name out_dir (arg_cmd args) r evs ->
      stages_shape args project name work_dir out_dir r
        (rsync_event project work_dir out_dir (Some 0)
           :: start_event name out_dir (Some 0) :: evs).

(** How the body of the [try] can end: the removal of a stale workspace
    comes first when there is one. *)
Inductive pipeline_shape (args : Args) (project : Path) (name : string)
    (work_dir out_dir : Path) : result Z -> list event -> Prop :=
  | pipe_clean_not_started :
      pipeline_shape args project name work_dir out_dir
        (Raise (OSError (rm_argv P work_dir)))
        [rm_event work_dir out_dir None]
  | pipe_cleaned rc r evs :
      stages_shape args project name work_dir out_dir r evs ->
      pipeline_shape args project name work_dir out_dir r
        (rm_event work_dir out_dir (Some rc) :: evs)
  | pipe_fresh r evs :
      stages_shape args project name work_dir out_dir r evs ->
      pipeline_shape args project name work_dir out_dir r evs.

(** How the [finally] can end. The return codes of the two programs do
    not matter; a program that cannot be started ends the teardown. *)
Inductive teardown_shape (args : Args) (name : string)
    (work_dir out_dir : Path) (lk : SlotLock)
  : result unit -> list event -> Prop :=
  | td_stop_not_started :
      teardown_shape args name work_dir out_dir lk
        (Raise (OSError (stop_argv P name)))
        [stop_event name out_dir None]
  | td_rm_not_started rc :
      arg_keep_workdir args = false ->
      teardown_shape args name work_dir out_dir lk
        (Raise (OSError (rm_argv P work_dir)))
        [stop_event name out_dir (Some rc); rm_event work_dir out_dir None]
  | td_kept rc :
      arg_keep_workdir args = true ->
      teardown_shape args name work_dir out_dir lk (Ok tt)
        [stop_event name out_dir (Some rc); EUnlock (lock_path lk)]
  | td_removed rc rc' :
      arg_keep_workdir args = false ->
      teardown_shape args name work_dir out_dir lk (Ok tt)
        [stop_event name out_dir (Some rc);
         rm_event work_dir out_dir (Some rc');
         EUnlock (lock_path lk)].

(** External programs leave the file at [g] as it is. *)
Definition keeps (g : Path) : Prop :=
  forall argv cwd w c,
    spawn P argv cwd w = Some c -> c_files c !! g = w_files w !! g.

End Traces.

(** The two sentinel files of an artifacts directory: what [OK] and what
    [FAILED] hold, [None] for a file that does not exist. *)
Definition sentinels (out_dir : Path) (w : World)
  : option string * option string :=
  (w_files w !! (out_dir // "OK"), w_files w !! (out_dir // "FAILED")).

(** ** Waiting for a slot *)

(** One unsuccessful turn of the [while True] of [acquire_slot]: the pass
    over the pool, then the sleep. *)
Definition wait_pass (P : Platform) (cfg : HarnessConfig) (w : World) : World :=
  sleep P 200 (snd (scan cfg (py_range 1 (slots cfg + 1)) w)).

(** ** Ownership of the lock table *)

(** Every lock in the kernel's table belongs to a live [SlotLock]. *)
Definition table_owned (cfg : HarnessConfig) (s : System) : Prop :=
  forall f p, In (f, p) (w_flocks (sys_world s)) ->
    exists h, In h (sys_live s) /\
              h_lock h = mkSlotLock p (Some f) /\
              p = slot_lock_path cfg (h_slot h).

(** ** A host on which locks get released *)

(** The example host, except that the other processes release every lock
    while this one sleeps. *)
Definition releasing_host : Platform :=
  mkPlatform true
    (fun _ _ w => Some (mkCompleted "" 0 (w_dirs w) (w_files w)))
    (fun w => set_flocks [] w)
    (fun p => p)
    (fun _ => "20240101-120000-4242")
    Demo.loads Demo.int_of Demo.str_of.

(** A configuration with an empty pool. *)
Definition empty_pool : HarnessConfig :=
  mkConfig 0 "dev" ["/"; "var"; "lib"; "harness"] "./artifacts".

Lemma segments_no_slash s : no_slash s = true -> segments s = [s].
Proof.
  induction s as [|c s IH]; simpl; [done|].
  intros [Hc Hs]%andb_prop. apply negb_true_iff in Hc. rewrite Hc.
  by rewrite IH.
Qed.

Lemma all_digits_no_slash s : all_digits s = true -> no_slash s = true.
Proof.
  induction s as [|c s IH]; simpl; [done|].
  intros [Hc Hs]%andb_prop. rewrite IH by done.
  rewrite andb_true_r. apply negb_true_iff. apply Ascii.eqb_neq.
  intros ->. discriminate Hc.
Qed.

Lemma string_of_uint_digits d : all_digits (NilEmpty.string_of_uint d) = true.
Proof. induction d; simpl; auto. Qed.

Lemma pos_to_uint_nonnil p : Pos.to_uint p <> Decimal.Nil.
Proof.
  intros H.
  pose proof (DecimalPos.Unsigned.of_to p) as Hp.
  rewrite H in Hp. discriminate Hp.
Qed.

Lemma nilzero_nonnil d :
  d <> Decimal.Nil -> NilZero.string_of_uint d = NilEmpty.string_of_uint d.
Proof. by destruct d. Qed.

(** The shape of a numeral: an optional sign, then at least one digit. *)
Lemma str_int_shape n :
  exists ds, ds <> "" /\ all_digits ds = true /\
             str_int n = (if n <? 0 then "-" +:+ ds else ds).
Proof.
  unfold str_int. destruct n as [|p|p]; simpl.
  - by exists "0".
  - exists (NilEmpty.string_of_uint (Pos.to_uint p)).
    rewrite nilzero_nonnil by apply pos_to_uint_nonnil.
    split_and!; [|apply string_of_uint_digits|done].
    pose proof (pos_to_uint_nonnil p). by destruct (Pos.to_uint p).
  - exists (NilEmpty.string_of_uint (Pos.to_uint p)).
    rewrite nilzero_nonnil by apply pos_to_uint_nonnil.
    split_and!; [|apply string_of_uint_digits|done].
    pose proof (pos_to_uint_nonnil p). by destruct (Pos.to_uint p).
Qed.

Lemma str_int_inj n m : str_int n = str_int m -> n = m.
Proof.
  unfold str_int. intros H.
  assert (Hn : forall z, NilZero.int_of_string
                 (NilZero.string_of_int (Z.to_int z)) = Some (Z.to_int z)).
  { intros z. apply NilZero.isi; destruct z; simpl; try discriminate;
      intros [= Hz]; by apply pos_to_uint_nonnil in Hz. }
  pose proof (Hn n) as H1. rewrite H, Hn in H1.
  injection H1 as H1.
  rewrite <- (DecimalZ.of_to n), <- (DecimalZ.of_to m). by rewrite H1.
Qed.

Lemma str_int_no_slash n : no_slash (str_int n) = true.
Proof.
  destruct (str_int_shape n) as (ds & _ & Hd & ->).
  destruct (n <? 0); simpl; by rewrite all_digits_no_slash.
Qed.

Lemma str_int_keep n : keep_segment (str_int n) = true.
Proof.
  destruct (str_int_shape n) as (ds & Hne & Hd & ->).
  destruct (n <? 0); [done|].
  destruct ds as [|c ds]; [done|].
  unfold keep_segment. simpl. apply andb_prop in Hd as [Hc _].
  destruct (Ascii.eqb_spec c "."%char) as [->|]; [discriminate Hc|done].
Qed.

Lemma str_int_relative n : is_absolute_str (str_int n) = false.
Proof.
  pose proof (str_int_no_slash n) as H.
  destruct (str_int n) as [|c s]; [done|]. simpl in *.
  apply andb_prop in H as [H _]. by apply negb_true_iff in H.
Qed.

(** Joining a numeral appends exactly one component. *)
Lemma joinpath_str_int p n : p // str_int n = p ++ [str_int n].
Proof.
  unfold joinpath, rel_parts. rewrite str_int_relative.
  rewrite segments_no_slash by apply str_int_no_slash.
  simpl. by rewrite str_int_keep.
Qed.

Lemma slot_dir_parts cfg n :
  slot_dir cfg n = state_dir cfg ++ ["slots"; str_int n].
Proof.
  unfold slot_dir, slot_paths. rewrite joinpath_str_int.
  unfold joinpath. simpl. by rewrite <- app_assoc.
Qed.

Lemma slot_lock_path_parts cfg n :
  slot_lock_path cfg n = state_dir cfg ++ ["slots"; str_int n; "slot.lock"].
Proof.
  change (slot_lock_path cfg n) with (slot_dir cfg n // "slot.lock").
  rewrite slot_dir_parts. unfold joinpath. simpl. by rewrite <- app_assoc.
Qed.

Lemma slot_work_dir_parts cfg n :
  slot_work_dir cfg n = state_dir cfg ++ ["slots"; str_int n; "work"].
Proof.
  change (slot_work_dir cfg n) with (slot_dir cfg n // "work").
  rewrite slot_dir_parts. unfold joinpath. simpl. by rewrite <- app_assoc.
Qed.

Lemma slot_lock_path_inj cfg i j :
  slot_lock_path cfg i = slot_lock_path cfg j -> i = j.
Proof.
  rewrite !slot_lock_path_parts. intros H%app_inv_head.
  injection H as H. by apply str_int_inj.
Qed.

Lemma append_inj_r (p s t : string) : p +:+ s = p +:+ t -> s = t.
Proof. apply String.app_inj. Qed.

Lemma slot_dir_inj cfg i j : slot_dir cfg i = slot_dir cfg j -> i = j.
Proof.
  rewrite !slot_dir_parts. intros H%app_inv_head.
  injection H as H. by apply str_int_inj.
Qed.

Lemma slot_work_dir_inj cfg i j :
  slot_work_dir cfg i = slot_work_dir cfg j -> i = j.
Proof.
  rewrite !slot_work_dir_parts. intros H%app_inv_head.
  injection H as H. by apply str_int_inj.
Qed.

Lemma slot_name_inj cfg i j : slot_name cfg i = slot_name cfg j -> i = j.
Proof.
  unfold slot_name, slot_paths. intros H%append_inj_r. by apply str_int_inj.
Qed.

(** C10. [slot_paths] is a function of the configuration and the index, and
    for a fixed configuration it is injective in the index, component by
    component: two indices with the same container name, the same slot
    directory, the same work directory or the same lock path are equal, so
    the locks of distinct slots never share a path. *)
Theorem slot_paths_injective (cfg : HarnessConfig) (i j : Z) :
  (i = j -> slot_paths cfg i = slot_paths cfg j) /\
  (slot_name cfg i = slot_name cfg j -> i = j) /\
  (slot_dir cfg i = slot_dir cfg j -> i = j) /\
  (slot_work_dir cfg i = slot_work_dir cfg j -> i = j) /\
  (slot_lock_path cfg i = slot_lock_path cfg j -> i = j).
Proof.
  split_and!.
  - by intros ->.
  - apply slot_name_inj.
  - apply slot_dir_inj.
  - apply slot_work_dir_inj.
  - apply slot_lock_path_inj.
Qed.

(** ** Reading lines *)




Lemma append_cons (x : ascii) (a b : string) :
  String x a +:+ b = String x (a +:+ b).
Proof. reflexivity. Qed.





Section Proofs.

Variable P : Platform.

(** ** Process runner *)


(** ** Configuration loading *)

Lemma int_json_not_pending v : int_json P v <> Pending.
Proof. destruct v; simpl; try done; by destruct (py_int P _). Qed.

(** C8, as the code has it. [load_config] raises when the configuration
    file is absent and when [slots], [containerPrefix] or [stateDir] is
    missing from the object in it. A missing [artifactsDirDefault] is not
    fatal: with the other three fields readable, the configuration is
    returned with the default ["./artifacts"]. *)
Theorem load_config_required_fields (w : World) :
  (w_files w !! CONFIG_PATH = None ->
   fst (load_config P w) = Raise (FileNotFoundError CONFIG_PATH)) /\
  (forall text members key,
     w_files w !! CONFIG_PATH = Some text ->
     json_loads P text = Some (JObject members) ->
     In key ["slots"; "containerPrefix"; "stateDir"] ->
     dict_lookup key members = None ->
     exists e, fst (load_config P w) = Raise e) /\
  (forall text members vs n vp sd,
     w_files w !! CONFIG_PATH = Some text ->
     json_loads P text = Some (JObject members) ->
     dict_lookup "slots" members = Some vs ->
     int_json P vs = Ok n ->
     dict_lookup "containerPrefix" members = Some vp ->
     dict_lookup "stateDir" members = Some (JString sd) ->
     dict_lookup "artifactsDirDefault" members = None ->
     fst (load_config P w) =
       Ok (mkConfig n (str_json P vp) (path_of_str sd) "./artifacts")).
Proof.
  split_and!.
  - intros H. unfold load_config. by rewrite H.
  - intros text members key Hf Hj Hk Hm. unfold load_config.
    rewrite Hf, Hj. simpl.
    destruct Hk as [<-|[<-|[<-|[]]]].
    + rewrite Hm. simpl. eauto.
    + destruct (dict_lookup "slots" members) as [vs|]; simpl; [|eauto].
      pose proof (int_json_not_pending vs).
      destruct (int_json P vs); simpl; [|eauto|done].
      rewrite Hm. simpl. eauto.
    + destruct (dict_lookup "slots" members) as [vs|]; simpl; [|eauto].
      pose proof (int_json_not_pending vs).
      destruct (int_json P vs); simpl; [|eauto|done].
      destruct (dict_lookup "containerPrefix" members); simpl; [|eauto].
      rewrite Hm. simpl. eauto.
  - intros text members vs n vp sd Hf Hj H1 H2 H3 H4 H5. unfold load_config.
    rewrite Hf, Hj. simpl. rewrite H1. simpl. rewrite H2. simpl.
    rewrite H3. simpl. rewrite H4. simpl. by rewrite H5.
Qed.

(** ** Slot lock *)

Lemma touch_frame p w :
  w_dirs (touch p w) = w_dirs w /\ w_flocks (touch p w) = w_flocks w /\
  w_trace (touch p w) = w_trace w /\ w_next_fd (touch p w) = w_next_fd w /\
  w_stdout (touch p w) = w_stdout w.
Proof. unfold touch. by destruct (w_files w !! p). Qed.

Lemma locked_flocks p w w' : w_flocks w' = w_flocks w -> locked p w' = locked p w.
Proof. unfold locked. by intros ->. Qed.

Lemma try_lock_refused p w :
  locked p w = true ->
  exists w', try_lock (new_lock p) w = (false, mkSlotLock p None, w') /\
             w_flocks w' = w_flocks w /\
             w_trace w' = w_trace w ++ [EFlock p false].
Proof.
  intros H. unfold try_lock. simpl.
  destruct (touch_frame p (mkdir_p (parent p) w)) as (_ & Hf & Ht & _).
  rewrite (locked_flocks p w) by (simpl; by rewrite Hf). rewrite H.
  eexists. split; [reflexivity|]. simpl. by rewrite Hf, Ht.
Qed.

Lemma try_lock_granted p w :
  locked p w = false ->
  exists f w', try_lock (new_lock p) w = (true, mkSlotLock p (Some f), w') /\
               w_flocks w' = w_flocks w ++ [(f, p)] /\
               w_trace w' = w_trace w ++ [EFlock p true].
Proof.
  intros H. unfold try_lock. simpl.
  destruct (touch_frame p (mkdir_p (parent p) w)) as (_ & Hf & Ht & _).
  rewrite (locked_flocks p w) by (simpl; by rewrite Hf). rewrite H.
  do 2 eexists. split; [reflexivity|]. simpl. by rewrite Hf, Ht.
Qed.

Lemma mkdir_p_present p w :
  (forall d, In d (ancestors_and_self p) -> d ∈ w_dirs w) -> mkdir_p p w = w.
Proof.
  intros H. unfold mkdir_p, set_fs. destruct w as [d f t n o tr]. simpl in *.
  f_equal. apply set_eq. intros x.
  rewrite elem_of_union, elem_of_list_to_set, list_elem_of_In.
  split; [intros [Hx|Hx]; auto | auto].
Qed.

(** A refused attempt on a lock file that is in place leaves the file
    system as it is. *)
Lemma try_lock_refused_fs p w :
  locked p w = true -> lock_file_present p w ->
  w_dirs (snd (try_lock (new_lock p) w)) = w_dirs w /\
  w_files (snd (try_lock (new_lock p) w)) = w_files w.
Proof.
  intros H [[x Hx] Hd]. unfold try_lock. simpl.
  rewrite (mkdir_p_present _ _ Hd).
  unfold touch. rewrite Hx. simpl.
  change (locked p _) with (locked p w). by rewrite H.
Qed.

(** The holder's own attempt is what puts the lock file in place. *)
Lemma try_lock_creates p w :
  lock_file_present p (snd (try_lock (new_lock p) w)).
Proof.
  assert (Hpre : lock_file_present p (touch p (mkdir_p (parent p) w))).
  { split.
    - unfold touch. destruct (w_files (mkdir_p (parent p) w) !! p) eqn:E.
      + by rewrite E.
      + simpl. by rewrite lookup_insert_eq.
    - intros d Hd. destruct (touch_frame p (mkdir_p (parent p) w)) as (-> & _).
      simpl. apply elem_of_union_r, elem_of_list_to_set.
      by apply list_elem_of_In. }
  unfold try_lock. simpl. destruct (locked p _); exact Hpre.
Qed.

(** ** Slot manager *)

Lemma py_range_In a b j : In j (py_range a b) <-> a <= j < b.
Proof.
  unfold py_range. rewrite in_map_iff. split.
  - intros (i & <- & Hi%in_seq). lia.
  - intros H. exists (Z.to_nat (j - a)). split; [lia|]. apply in_seq. lia.
Qed.

Lemma map_seq_from {A} (f : nat -> A) s n :
  List.map f (seq s n) = List.map (fun i => f (s + i)%nat) (seq 0 n).
Proof.
  revert f s. induction n as [|n IH]; intros f s; simpl; [done|].
  f_equal; [f_equal; lia|].
  rewrite (IH f (S s)), (IH (fun i => f (s + i)%nat) 1%nat).
  apply map_ext. intros i. f_equal. lia.
Qed.

Lemma py_range_split a k b :
  a <= k < b -> py_range a b = py_range a k ++ k :: py_range (k + 1) b.
Proof.
  intros H. unfold py_range.
  replace (Z.to_nat (b - a))
    with (Z.to_nat (k - a) + S (Z.to_nat (b - (k + 1))))%nat by lia.
  rewrite seq_app, map_app. f_equal.
  rewrite map_seq_from. simpl. f_equal; [lia|].
  rewrite (map_seq_from _ 1). apply map_ext. intros i. lia.
Qed.

Lemma scan_all_refused cfg l w :
  (forall s, In s l -> locked (slot_lock_path cfg s) w = true) ->
  exists w', scan cfg l w = (None, w') /\
             w_flocks w' = w_flocks w /\
             w_trace w' = w_trace w ++ List.map (refused cfg) l.
Proof.
  revert w. induction l as [|s l IH]; intros w H; simpl.
  - exists w. by rewrite app_nil_r.
  - change (state_dir cfg // "slots" // str_int s // "slot.lock")
      with (slot_lock_path cfg s).
    destruct (try_lock_refused _ w (H s (or_introl eq_refl)))
      as (w1 & -> & Hf & Ht).
    destruct (IH w1) as (w' & -> & Hf' & Ht').
    { intros s' Hs'. rewrite (locked_flocks _ w) by done. apply H. by right. }
    exists w'. split; [done|]. rewrite Hf', Ht', Hf, Ht.
    by rewrite <- app_assoc.
Qed.

Lemma scan_first_free cfg l1 k l2 w :
  (forall s, In s l1 -> locked (slot_lock_path cfg s) w = true) ->
  locked (slot_lock_path cfg k) w = false ->
  exists f w',
    scan cfg (l1 ++ k :: l2) w
      = (Some (k, mkSlotLock (slot_lock_path cfg k) (Some f)), w') /\
    w_flocks w' = w_flocks w ++ [(f, slot_lock_path cfg k)] /\
    w_trace w' = w_trace w ++ List.map (refused cfg) l1 ++ [granted cfg k].
Proof.
  revert w. induction l1 as [|s l1 IH]; intros w H Hk; simpl.
  - change (state_dir cfg // "slots" // str_int k // "slot.lock")
      with (slot_lock_path cfg k).
    destruct (try_lock_granted _ w Hk) as (f & w' & -> & Hf & Ht).
    by exists f, w'.
  - change (state_dir cfg // "slots" // str_int s // "slot.lock")
      with (slot_lock_path cfg s).
    destruct (try_lock_refused _ w (H s (or_introl eq_refl)))
      as (w1 & -> & Hf & Ht).
    destruct (IH w1) as (f & w' & -> & Hf' & Ht').
    { intros s' Hs'. rewrite (locked_flocks _ w) by done. apply H. by right. }
    { by rewrite (locked_flocks _ w). }
    exists f, w'. split; [done|]. rewrite Hf', Ht', Hf, Ht.
    by rewrite <- app_assoc.
Qed.

Lemma scan_all_refused_fs cfg l w :
  (forall s, In s l -> locked (slot_lock_path cfg s) w = true /\
                       lock_file_present (slot_lock_path cfg s) w) ->
  w_dirs (snd (scan cfg l w)) = w_dirs w /\
  w_files (snd (scan cfg l w)) = w_files w.
Proof.
  revert w. induction l as [|s l IH]; intros w H; simpl; [done|].
  change (state_dir cfg // "slots" // str_int s // "slot.lock")
    with (slot_lock_path cfg s).
  destruct (H s (or_introl eq_refl)) as [Hl Hp].
  destruct (try_lock_refused_fs _ w Hl Hp) as [Hd Hf].
  destruct (try_lock_refused _ w Hl) as (w1 & E & Hfl & _).
  rewrite E in *. simpl in *.
  destruct (IH w1) as [Hd' Hf'].
  { intros s' Hs'. destruct (H s' (or_intror Hs')) as [Hl' [Hp1 Hp2]].
    split; [by rewrite (locked_flocks _ w)|].
    split; [by rewrite Hf|]. intros d Hd0. rewrite Hd. by apply Hp2. }
  by rewrite Hd', Hf'.
Qed.




Lemma load_config_world w : snd (load_config P w) = w.
Proof.
  unfold load_config. destruct (w_files w !! CONFIG_PATH); [|done].
  by destruct (json_loads P _).
Qed.

(** C7. With [--no-wait], when every slot is held and the lock files are in
    place as their holders left them, [main] raises "no free slots
    available" and the file system is what it was: no directory and no file
    is created, changed or removed, under the slot directories or anywhere
    else, and no lock is taken. *)
Theorem no_wait_all_held_no_mutation (args : Args) (cfg : HarnessConfig)
    (w : World) (fuel : nat) :
  arg_no_wait args = true ->
  load_config P w = (Ok cfg, w) ->
  all_held cfg w ->
  (forall j, 1 <= j <= slots cfg ->
             lock_file_present (slot_lock_path cfg j) w) ->
  exists w',
    main P (S fuel) args w
      = (Raise (RuntimeError "no free slots available"), w') /\
    w_dirs w' = w_dirs w /\ w_files w' = w_files w /\
    w_flocks w' = w_flocks w.
Proof.
  intros Hnw Hcfg Hheld Hfiles. unfold main, bind. rewrite Hcfg, Hnw. simpl.
  destruct (scan_all_refused cfg (py_range 1 (slots cfg + 1)) w)
    as (w' & E & Hf & _).
  { intros s Hs%py_range_In. apply Hheld. lia. }
  destruct (scan_all_refused_fs cfg (py_range 1 (slots cfg + 1)) w)
    as [Hd Hfs].
  { intros s Hs%py_range_In. split; [apply Hheld|apply Hfiles]; lia. }
  rewrite E in *. simpl in *. by exists w'.
Qed.

(** ** Mutual exclusion *)



Lemma NoDup_map_filter {A B} (g : A -> B) (q : A -> bool) (l : list A) :
  NoDup (List.map g l) -> NoDup (List.map g (List.filter q l)).
Proof.
  induction l as [|z l IH]; simpl; [done|].
  intros Hnd. inversion Hnd as [|? ? Hz Hnd']; subst.
  destruct (q z); simpl; [|by apply IH].
  constructor; [|by apply IH].
  intros Hin%list_elem_of_In%in_map_iff. destruct Hin as (y & Ey & Hy%filter_In).
  apply Hz. rewrite <- Ey. apply list_elem_of_In, in_map. tauto.
Qed.

Lemma NoDup_map_app_remove {A B} (g : A -> B) (l1 l2 : list A) h :
  NoDup (List.map g (l1 ++ h :: l2)) ->
  NoDup (List.map g (l1 ++ l2)) /\
  forall h', In h' (l1 ++ l2) -> g h' <> g h.
Proof.
  rewrite !map_app. simpl. intros Hnd.
  apply NoDup_ListNoDup in Hnd.
  pose proof (List.NoDup_remove_1 _ _ _ Hnd) as H1.
  pose proof (List.NoDup_remove_2 _ _ _ Hnd) as H2.
  split; [by apply NoDup_ListNoDup|].
  intros h' Hh' E. apply H2. rewrite <- E, <- map_app. by apply in_map.
Qed.

Lemma sys_inv_initial cfg s : sys_initial s -> sys_inv cfg s.
Proof.
  intros [Hf Hl]. split; rewrite ?Hf, ?Hl; simpl; try constructor; done.
Qed.

Lemma release_inv cfg w l1 h l2 w' :
  sys_inv cfg (mkSystem w (l1 ++ h :: l2)) ->
  w_next_fd w' = w_next_fd w ->
  (forall f, fd (h_lock h) = Some f ->
     w_flocks w' = List.filter (fun e => negb (Nat.eqb (fst e) f)) (w_flocks w)) ->
  sys_inv cfg (mkSystem w' (l1 ++ l2)).
Proof.
  intros [I1 I2 I3 I4] Hn Hw. simpl in *.
  destruct (I4 h) as (_ & f & Hlk & _); [apply in_elt|].
  specialize (Hw f). rewrite Hlk in Hw. specialize (Hw eq_refl).
  destruct (NoDup_map_app_remove _ _ _ _ I3) as [I3' Hne].
  split; simpl; rewrite ?Hw, ?Hn.
  - intros e [He _]%filter_In. by apply I1.
  - by apply NoDup_map_filter.
  - done.
  - intros h' Hh'.
    destruct (I4 h') as (Hr & f' & Hlk' & Hin).
    { apply in_app_iff in Hh' as [?|?]; apply in_app_iff; simpl; auto. }
    split; [done|]. exists f'. split; [done|].
    apply filter_In. split; [done|]. simpl.
    apply negb_true_iff, Nat.eqb_neq. intros ->.
    apply (Hne h' Hh'). by rewrite Hlk, Hlk'.
Qed.

Lemma sys_step_inv cfg s s' : sys_inv cfg s -> sys_step cfg s s' -> sys_inv cfg s'.
Proof.
  intros Hinv Hstep. destruct Hstep as
    [pid slot w live ok lk w' Hr Htry | w l1 h l2 | w l1 h l2 | w w' live Hf Hn].
  - destruct Hinv as [I1 I2 I3 I4]. simpl in *.
    unfold try_lock in Htry. simpl in Htry.
    set (p := slot_lock_path cfg slot) in *.
    destruct (touch_frame p (mkdir_p (parent p) w)) as (_ & Et & _ & En & _).
    simpl in Et, En.
    rewrite (locked_flocks p w) in Htry by (simpl; by rewrite Et).
    destruct (locked p w) eqn:Hl; injection Htry as <- <- <-.
    + split; simpl; rewrite ?Et, ?En; try done.
      intros e He. specialize (I1 e He). lia.
    + assert (Hfresh : forall h, In h live -> fd (h_lock h) <> Some (w_next_fd w)).
      { intros h Hh E. destruct (I4 h Hh) as (_ & f & Hlk & Hin).
        rewrite Hlk in E. injection E as ->. specialize (I1 _ Hin). simpl in I1. lia. }
      split; simpl; rewrite ?Et, ?En.
      * intros e [He|[<-|[]]]%in_app_iff; [specialize (I1 e He)|simpl]; lia.
      * rewrite map_app. simpl. apply NoDup_app. split_and!; [done| |apply NoDup_singleton].
        intros x Hx ->%list_elem_of_singleton.
        unfold locked in Hl. apply bool_decide_eq_false in Hl. by apply Hl.
      * rewrite map_app. simpl. apply NoDup_app. split_and!; [done| |apply NoDup_singleton].
        intros x Hx ->%list_elem_of_singleton.
        apply list_elem_of_In, in_map_iff in Hx as (h & E & Hh).
        by apply (Hfresh h Hh).
      * intros h [Hh|[<-|[]]]%in_app_iff.
        -- destruct (I4 h Hh) as (Hr' & f & Hlk & Hin). split; [done|].
           exists f. split; [done|]. apply in_app_iff. by left.
        -- simpl. split; [done|]. exists (w_next_fd w). split; [done|].
           apply in_app_iff. right. by left.
  - apply (release_inv cfg w l1 h l2); [done| |].
    + unfold unlock. by destruct (fd (h_lock h)).
    + intros f Hf. unfold unlock. by rewrite Hf.
  - apply (release_inv cfg w l1 h l2); [done| |].
    + unfold close_fd. by destruct (fd (h_lock h)).
    + intros f Hf. unfold close_fd. by rewrite Hf.
  - destruct Hinv as [I1 I2 I3 I4]. simpl in *.
    split; simpl; rewrite ?Hf; try done.
    intros e He. specialize (I1 e He). lia.
Qed.





(** The steps of the model are the code's: a pass of [acquire_slot] by a
    process is a sequence of [step_try]. *)
Lemma scan_sys_steps cfg pid l w live :
  (forall s, In s l -> 1 <= s <= slots cfg) ->
  rtc (sys_step cfg) (mkSystem w live)
      (mkSystem (snd (scan cfg l w))
                (match fst (scan cfg l w) with
                 | Some (s, lk) => live ++ [mkHolder pid s lk]
                 | None => live
                 end)).
Proof.
  revert w. induction l as [|s l IH]; intros w H; simpl; [apply rtc_refl|].
  change (state_dir cfg // "slots" // str_int s // "slot.lock")
    with (slot_lock_path cfg s).
  destruct (try_lock (new_lock (slot_lock_path cfg s)) w) as [[ok lk] w1] eqn:E.
  pose proof (step_try cfg pid s w live ok lk w1 (H s (or_introl eq_refl)) E)
    as Hstep.
  destruct ok; simpl.
  - by apply rtc_once.
  - eapply rtc_l; [exact Hstep|]. apply IH. intros s' Hs'. apply H. by right.
Qed.

(** ** Run executor *)

Lemma drain_frame lines log w :
  w_trace (drain lines log w) = w_trace w /\
  w_flocks (drain lines log w) = w_flocks w /\
  w_next_fd (drain lines log w) = w_next_fd w.
Proof.
  revert w. induction lines as [|l ls IH]; intros w; simpl; [done|].
  destruct (String.eqb l ""); [done|].
  destruct (IH (forward_line log l w)) as (-> & -> & ->).
  by destruct log.
Qed.

Lemma run_cmd_cases cmd cwd log w r w' :
  run_cmd P cmd cwd log w = (r, w') ->
  w_flocks w' = w_flocks w /\ w_next_fd w' = w_next_fd w /\
  ((exists rc, r = Ok rc /\
               w_trace w' = w_trace w ++ [ERun cmd log (Some rc)]) \/
   (r = Raise (OSError cmd) /\ w_trace w' = w_trace w ++ [ERun cmd log None])).
Proof.
  unfold run_cmd. destruct (spawn P cmd cwd w) as [c|]; intros [= <- <-].
  - destruct (drain_frame (readlines (c_output c)) log
                (set_fs (c_dirs c) (c_files c) w)) as (Ht & Hf & Hn).
    simpl. rewrite Ht, Hf, Hn. split_and!; [done..|]. left. by eexists.
  - simpl. split_and!; [done..|]. by right.
Qed.

Lemma run_commands_cases name out_dir cmds idx w r w' :
  run_commands P name out_dir idx cmds w = (r, w') ->
  (r = Ok 0 /\
   w_trace w' = w_trace w ++ passed_events P name out_dir idx cmds
                          ++ [EWrite (out_dir // "OK") ok_text]) \/
  (exists k cmd rc,
     cmds !! k = Some cmd /\ rc <> 0 /\ r = Ok rc /\
     w_trace w' = w_trace w
       ++ passed_events P name out_dir idx (take k cmds)
       ++ [cmd_event P name out_dir (idx + Z.of_nat k) cmd (Some rc);
           EWrite (out_dir // "FAILED")
                  (failed_text (idx + Z.of_nat k) cmd rc)]) \/
  (exists k cmd,
     cmds !! k = Some cmd /\ r = Raise (OSError (run_argv P name cmd)) /\
     w_trace w' = w_trace w
       ++ passed_events P name out_dir idx (take k cmds)
       ++ [cmd_event P name out_dir (idx + Z.of_nat k) cmd None]).
Proof.
  revert idx w. induction cmds as [|cmd rest IH]; intros idx w; simpl.
  - intros [= <- <-]. left. by simpl.
  - unfold bind, container_run.
    destruct (run_cmd P (run_argv P name cmd) None (Some (cmd_log out_dir idx)) w)
      as [r1 w1] eqn:E.
    destruct (run_cmd_cases _ _ _ _ _ _ E) as (_ & _ & [(rc & -> & Ht)|[-> Ht]]).
    + destruct (Z.eqb_spec rc 0) as [->|Hrc]; simpl.
      * intros H. destruct (IH _ _ H) as [[-> Ht']|[(k & c & rc & Hk & Hrc & -> & Ht')|(k & c & Hk & -> & Ht')]].
        -- left. split; [done|]. rewrite Ht', Ht. by rewrite <- app_assoc.
        -- right. left. exists (S k), c, rc. split_and!; [done..|].
           rewrite Ht', Ht. simpl. rewrite <- app_assoc. simpl.
           by replace (idx + 1 + Z.of_nat k) with (idx + Z.pos (Pos.of_succ_nat k)) by lia.
        -- right. right. exists (S k), c. split_and!; [done..|].
           rewrite Ht', Ht. simpl. rewrite <- app_assoc. simpl.
           by replace (idx + 1 + Z.of_nat k) with (idx + Z.pos (Pos.of_succ_nat k)) by lia.
      * intros [= <- <-]. right. left. exists 0%nat, cmd, rc.
        split_and!; [done..|]. simpl. rewrite Ht, Z.add_0_r.
        by rewrite <- app_assoc.
    + intros [= <- <-]. right. right. exists 0%nat, cmd.
      split_and!; [done..|]. simpl. by rewrite Ht, Z.add_0_r.
Qed.

Lemma no_slash_app a b : no_slash (a +:+ b) = no_slash a && no_slash b.
Proof.
  induction a as [|c a IH]; [done|].
  rewrite append_cons. simpl. by rewrite IH, andb_assoc.
Qed.

Lemma fmt_02d_no_slash idx : no_slash (fmt_02d idx) = true.
Proof.
  unfold fmt_02d. destruct (_ <? _)%nat.
  - rewrite no_slash_app. by rewrite str_int_no_slash.
  - apply str_int_no_slash.
Qed.

(** The log of command [idx] is the file [cmd-NN.log] of the artifacts
    directory. *)
Lemma cmd_log_parts out_dir idx :
  cmd_log out_dir idx = out_dir ++ ["cmd-" +:+ fmt_02d idx +:+ ".log"].
Proof.
  unfold cmd_log, joinpath, rel_parts.
  change (is_absolute_str _) with false. cbv iota.
  rewrite segments_no_slash.
  - by change (keep_segment _) with true.
  - rewrite !no_slash_app, fmt_02d_no_slash. done.
Qed.



(** ** Run orchestrator *)

Lemma run_commands_shape name out_dir cmds w r w' :
  run_commands P name out_dir 1 cmds w = (r, w') ->
  exists evs, w_trace w' = w_trace w ++ evs /\
              commands_shape P name out_dir cmds r evs.
Proof.
  intros H. destruct (run_commands_cases _ _ _ _ _ _ _ H)
    as [[-> Ht]|[(k & c & rc & Hk & Hrc & -> & Ht)|(k & c & Hk & -> & Ht)]];
    eexists; (split; [exact Ht|]).
  - constructor.
  - by constructor.
  - by constructor.
Qed.

Lemma run_commands_flocks name out_dir cmds idx w :
  w_flocks (snd (run_commands P name out_dir idx cmds w)) = w_flocks w.
Proof.
  revert idx w. induction cmds as [|cmd rest IH]; intros idx w; simpl; [done|].
  unfold bind, container_run.
  destruct (run_cmd P _ None _ w) as [r1 w1] eqn:E.
  destruct (run_cmd_cases _ _ _ _ _ _ E) as (Hf & _).
  destruct r1 as [rc| |]; simpl; try done.
  destruct (Z.eqb_spec rc 0); simpl; [|done].
  by rewrite IH.
Qed.

Lemma stages_shape_run args project name work_dir out_dir w r w' :
  (rsync_project P project work_dir (out_dir // "rsync.log") ;;;
   container_start P name (out_dir // "lifecycle.log") ;;;
   run_commands P name out_dir 1 (arg_cmd args)) w = (r, w') ->
  w_flocks w' = w_flocks w /\
  exists evs, w_trace w' = w_trace w ++ evs /\
              stages_shape P args project name work_dir out_dir r evs.
Proof.
  unfold rsync_project, container_start, bind, effect.
  destruct (run_cmd P (rsync_argv P project work_dir) None _ (mkdir_p work_dir w))
    as [r1 w1] eqn:E1.
  destruct (run_cmd_cases _ _ _ _ _ _ E1) as (Hf1 & _ & [(rc & -> & Ht1)|[-> Ht1]]);
    simpl in Hf1, Ht1.
  2:{ intros [= <- <-]. split; [done|]. eexists. split; [exact Ht1|]. constructor. }
  destruct (Z.eqb_spec rc 0) as [->|Hrc]; simpl.
  2:{ intros [= <- <-]. split; [done|]. eexists. split; [exact Ht1|].
      by constructor. }
  destruct (run_cmd P (start_argv P name) None _ w1) as [r2 w2] eqn:E2.
  destruct (run_cmd_cases _ _ _ _ _ _ E2) as (Hf2 & _ & [(rc & -> & Ht2)|[-> Ht2]]).
  2:{ intros [= <- <-]. split; [congruence|]. eexists.
      split; [rewrite Ht2, Ht1, <- app_assoc; reflexivity|]. constructor. }
  destruct (Z.eqb_spec rc 0) as [->|Hrc]; simpl.
  2:{ intros [= <- <-]. split; [congruence|]. eexists.
      split; [rewrite Ht2, Ht1, <- app_assoc; reflexivity|]. by constructor. }
  intros H. pose proof (run_commands_flocks name out_dir (arg_cmd args) 1 w2) as Hf3.
  rewrite H in Hf3. simpl in Hf3.
  destruct (run_commands_shape _ _ _ _ _ _ H) as (evs & Ht3 & Hs).
  split; [congruence|]. eexists.
  split; [rewrite Ht3, Ht2, Ht1, <- !app_assoc; reflexivity|].
  by constructor.
Qed.

Lemma pipeline_shape_run args project name work_dir out_dir w r w' :
  pipeline P args project name work_dir out_dir w = (r, w') ->
  w_flocks w' = w_flocks w /\
  exists evs, w_trace w' = w_trace w ++ evs /\
              pipeline_shape P args project name work_dir out_dir r evs.
Proof.
  unfold pipeline. unfold bind at 1.
  destruct (path_exists work_dir w).
  - unfold bind at 1.
    destruct (run_cmd P (rm_argv P work_dir) None _ w) as [r0 w0] eqn:E0.
    destruct (run_cmd_cases _ _ _ _ _ _ E0) as (Hf0 & _ & [(rc & -> & Ht0)|[-> Ht0]]).
    + simpl. unfold bind at 1, effect at 1.
      intros H. destruct (stages_shape_run _ _ _ _ _ _ _ _ H) as (Hf & evs & Ht & Hs).
      split; [by rewrite Hf|]. eexists.
      split; [rewrite Ht; simpl; rewrite Ht0, <- app_assoc; reflexivity|].
      by constructor.
    + intros [= <- <-]. split; [done|]. eexists. split; [exact Ht0|]. constructor.
  - simpl. unfold bind at 1, effect at 1.
    intros H. destruct (stages_shape_run _ _ _ _ _ _ _ _ H) as (Hf & evs & Ht & Hs).
    split; [by rewrite Hf|]. exists evs. split; [by rewrite Ht|].
    by apply pipe_fresh.
Qed.

Lemma teardown_shape_run args name work_dir out_dir lk f w r w' :
  fd lk = Some f ->
  teardown P args name work_dir out_dir lk w = (r, w') ->
  (exists evs, w_trace w' = w_trace w ++ evs /\
               teardown_shape P args name work_dir out_dir lk r evs) /\
  (r = Ok tt ->
   w_flocks w' = List.filter (fun e => negb (Nat.eqb (fst e) f)) (w_flocks w)) /\
  (r <> Ok tt -> w_flocks w' = w_flocks w).
Proof.
  intros Hfd. unfold teardown, container_stop. unfold bind at 1 2.
  destruct (run_cmd P (stop_argv P name) None _ w) as [r1 w1] eqn:E1.
  destruct (run_cmd_cases _ _ _ _ _ _ E1) as (Hf1 & _ & [(rc & -> & Ht1)|[-> Ht1]]).
  2:{ intros [= <- <-]. split_and!; [|done|done].
      eexists. split; [exact Ht1|]. constructor. }
  simpl. destruct (arg_keep_workdir args) eqn:Hk; simpl.
  - unfold bind, effect, ret, unlock. rewrite Hfd. intros [= <- <-]. simpl.
    split_and!; [|by rewrite Hf1|done].
    eexists. split; [rewrite Ht1, <- app_assoc; reflexivity|]. by constructor.
  - unfold bind at 1 2.
    destruct (run_cmd P (rm_argv P work_dir) None _ w1) as [r2 w2] eqn:E2.
    destruct (run_cmd_cases _ _ _ _ _ _ E2) as (Hf2 & _ & [(rc' & -> & Ht2)|[-> Ht2]]).
    2:{ intros [= <- <-]. split_and!; [|done|by rewrite Hf2].
        eexists. split; [rewrite Ht2, Ht1, <- app_assoc; reflexivity|].
        by constructor. }
    simpl. unfold effect, unlock. rewrite Hfd. intros [= <- <-]. simpl.
    split_and!; [|by rewrite Hf2, Hf1|done].
    eexists. split; [rewrite Ht2, Ht1, <- !app_assoc; reflexivity|].
    by constructor.
Qed.

Lemma pipeline_shape_not_pending args project name work_dir out_dir r evs :
  pipeline_shape P args project name work_dir out_dir r evs -> r <> Pending.
Proof.
  intros H. inversion H as [|? ? ? Hs|? ? Hs]; subst; try done;
    inversion Hs as [| | | |? ? Hc]; subst; try done;
    inversion Hc; subst; done.
Qed.


(** ** Sentinel files *)

Lemma drain_other lines f g w :
  f <> g -> w_files (drain lines (Some f) w) !! g = w_files w !! g.
Proof.
  intros Hne. revert w. induction lines as [|l ls IH]; intros w; simpl; [done|].
  destruct (String.eqb l ""); [done|].
  rewrite IH. simpl. by rewrite lookup_insert_ne.
Qed.

Lemma run_cmd_keeps cmd cwd f g w :
  keeps P g -> f <> g ->
  w_files (snd (run_cmd P cmd cwd (Some f) w)) !! g = w_files w !! g.
Proof.
  intros Hk Hne. unfold run_cmd.
  destruct (spawn P cmd cwd w) as [c|] eqn:E; simpl; [|done].
  rewrite drain_other by done. simpl. by apply (Hk cmd cwd).
Qed.

Lemma sentinel_not_log out_dir idx s :
  s = "OK" \/ s = "FAILED" ->
  out_dir // "lifecycle.log" <> out_dir // s /\
  out_dir // "rsync.log" <> out_dir // s /\
  cmd_log out_dir idx <> out_dir // s /\
  out_dir // "OK" <> out_dir // "FAILED".
Proof.
  rewrite cmd_log_parts.
  intros [-> | ->]; split_and!; unfold joinpath; simpl;
    intros E%app_inv_head; discriminate E.
Qed.

Lemma run_commands_sentinels name out_dir cmds idx w r w' :
  keeps P (out_dir // "OK") -> keeps P (out_dir // "FAILED") ->
  run_commands P name out_dir idx cmds w = (r, w') ->
  (r = Ok 0 ->
   w_files w' !! (out_dir // "OK") = Some ok_text /\
   w_files w' !! (out_dir // "FAILED") = w_files w !! (out_dir // "FAILED")) /\
  (forall rc, rc <> 0 -> r = Ok rc ->
   is_Some (w_files w' !! (out_dir // "FAILED")) /\
   w_files w' !! (out_dir // "OK") = w_files w !! (out_dir // "OK")) /\
  (forall e, r = Raise e ->
   w_files w' !! (out_dir // "OK") = w_files w !! (out_dir // "OK") /\
   w_files w' !! (out_dir // "FAILED") = w_files w !! (out_dir // "FAILED")).
Proof.
  intros Hok Hfl. revert idx w.
  induction cmds as [|cmd rest IH]; intros idx w; simpl.
  - intros [= <- <-]. simpl. split_and!.
    + intros _. rewrite lookup_insert_eq. split; [done|].
      rewrite lookup_insert_ne; [done|].
      apply (sentinel_not_log out_dir 0 "FAILED"). by right.
    + intros rc Hrc [= <-]. done.
    + done.
  - unfold bind, container_run.
    destruct (sentinel_not_log out_dir idx "OK") as (_ & _ & Hn1 & Hn3); [by left|].
    destruct (sentinel_not_log out_dir idx "FAILED") as (_ & _ & Hn2 & _); [by right|].
    pose proof (run_cmd_keeps (run_argv P name cmd) None _ _ w Hok Hn1) as K1.
    pose proof (run_cmd_keeps (run_argv P name cmd) None _ _ w Hfl Hn2) as K2.
    destruct (run_cmd P (run_argv P name cmd) None (Some (cmd_log out_dir idx)) w)
      as [r1 w1]. simpl in K1, K2.
    destruct r1 as [rc| |]; try (intros [= <- <-]; split_and!; done).
    destruct (Z.eqb_spec rc 0) as [->|Hrc]; simpl.
    + intros H. destruct (IH _ _ H) as (H1 & H2 & H3).
      rewrite <- K1, <- K2. done.
    + intros [= <- <-]. simpl. split_and!.
      * intros [= ->]. done.
      * intros rc' _ _. rewrite lookup_insert_eq. split; [done|].
        rewrite lookup_insert_ne by done. done.
      * done.
Qed.

Lemma run_cmd_sentinels out_dir cmd cwd f w :
  keeps P (out_dir // "OK") -> keeps P (out_dir // "FAILED") ->
  f <> out_dir // "OK" -> f <> out_dir // "FAILED" ->
  sentinels out_dir (snd (run_cmd P cmd cwd (Some f) w)) = sentinels out_dir w.
Proof.
  intros H1 H2 N1 N2. unfold sentinels.
  by rewrite !run_cmd_keeps.
Qed.

Lemma lifecycle_not_sentinel out_dir :
  out_dir // "lifecycle.log" <> out_dir // "OK" /\
  out_dir // "lifecycle.log" <> out_dir // "FAILED".
Proof.
  split; [apply (sentinel_not_log out_dir 0 "OK")
         |apply (sentinel_not_log out_dir 0 "FAILED")]; auto.
Qed.

Lemma rsync_log_not_sentinel out_dir :
  out_dir // "rsync.log" <> out_dir // "OK" /\
  out_dir // "rsync.log" <> out_dir // "FAILED".
Proof.
  split; [apply (sentinel_not_log out_dir 0 "OK")
         |apply (sentinel_not_log out_dir 0 "FAILED")]; auto.
Qed.

Lemma teardown_sentinels args name work_dir out_dir lk w :
  keeps P (out_dir // "OK") -> keeps P (out_dir // "FAILED") ->
  sentinels out_dir (snd (teardown P args name work_dir out_dir lk w))
  = sentinels out_dir w.
Proof.
  intros H1 H2. destruct (lifecycle_not_sentinel out_dir) as [N1 N2].
  unfold teardown, container_stop. unfold bind at 1 2.
  pose proof (run_cmd_sentinels out_dir (stop_argv P name) None _ w H1 H2 N1 N2) as K1.
  destruct (run_cmd P (stop_argv P name) None _ w) as [r1 w1].
  simpl in K1. destruct r1; simpl; try done.
  destruct (arg_keep_workdir args); simpl.
  - unfold bind, effect, ret, unlock. simpl.
    destruct (fd lk); simpl; done.
  - unfold bind at 1 2.
    pose proof (run_cmd_sentinels out_dir (rm_argv P work_dir) None _ w1 H1 H2 N1 N2) as K2.
    destruct (run_cmd P (rm_argv P work_dir) None _ w1) as [r2 w2].
    simpl in K2. destruct r2; simpl; try congruence.
    unfold effect, unlock. unfold sentinels in *.
    destruct (fd lk); simpl; congruence.
Qed.

Lemma pipeline_sentinels args project name work_dir out_dir w r w' :
  keeps P (out_dir // "OK") -> keeps P (out_dir // "FAILED") ->
  pipeline P args project name work_dir out_dir w = (r, w') ->
  (r = Ok 0 ->
   sentinels out_dir w' = (Some ok_text, snd (sentinels out_dir w))) /\
  (forall rc, rc <> 0 -> r = Ok rc ->
   is_Some (snd (sentinels out_dir w')) /\
   fst (sentinels out_dir w') = fst (sentinels out_dir w)) /\
  (forall e, r = Raise e -> sentinels out_dir w' = sentinels out_dir w).
Proof.
  intros H1 H2. destruct (lifecycle_not_sentinel out_dir) as [N1 N2].
  destruct (rsync_log_not_sentinel out_dir) as [N3 N4].
  assert (Hstages : forall w r w',
    (rsync_project P project work_dir (out_dir // "rsync.log") ;;;
     container_start P name (out_dir // "lifecycle.log") ;;;
     run_commands P name out_dir 1 (arg_cmd args)) w = (r, w') ->
    (r = Ok 0 ->
     sentinels out_dir w' = (Some ok_text, snd (sentinels out_dir w))) /\
    (forall rc, rc <> 0 -> r = Ok rc ->
     is_Some (snd (sentinels out_dir w')) /\
     fst (sentinels out_dir w') = fst (sentinels out_dir w)) /\
    (forall e, r = Raise e -> sentinels out_dir w' = sentinels out_dir w)).
  { clear w r w'. intros w r w'.
    unfold rsync_project, container_start, bind, effect.
    pose proof (run_cmd_sentinels out_dir (rsync_argv P project work_dir)
                  None _ (mkdir_p work_dir w) H1 H2 N3 N4) as K1.
    destruct (run_cmd P (rsync_argv P project work_dir) None _ (mkdir_p work_dir w))
      as [r1 w1].
    change (sentinels out_dir (mkdir_p work_dir w)) with (sentinels out_dir w) in K1.
    simpl in K1. destruct r1 as [rc| |]; try (intros [= <- <-]; split_and!; done).
    destruct (Z.eqb_spec rc 0) as [->|Hrc]; simpl;
      [|intros [= <- <-]; split_and!; done].
    pose proof (run_cmd_sentinels out_dir (start_argv P name) None _ w1 H1 H2 N1 N2) as K2.
    destruct (run_cmd P (start_argv P name) None _ w1) as [r2 w2].
    simpl in K2. destruct r2 as [rc| |]; try (intros [= <- <-]; split_and!; congruence).
    destruct (Z.eqb_spec rc 0) as [->|Hrc]; simpl;
      [|intros [= <- <-]; split_and!; congruence].
    intros H. destruct (run_commands_sentinels _ _ _ _ _ _ _ H1 H2 H) as (A & B & C).
    assert (E : sentinels out_dir w2 = sentinels out_dir w) by congruence.
    unfold sentinels in *. simpl. injection E as E1 E2.
    split_and!.
    - intros Hr. destruct (A Hr) as [-> ->]. by rewrite E2.
    - intros rc Hrc Hr. destruct (B rc Hrc Hr) as [? ->]. by rewrite E1.
    - intros e Hr. destruct (C e Hr) as [-> ->]. by rewrite E1, E2. }
  unfold pipeline. unfold bind at 1.
  destruct (path_exists work_dir w).
  - unfold bind at 1.
    pose proof (run_cmd_sentinels out_dir (rm_argv P work_dir) None _ w H1 H2 N1 N2) as K0.
    destruct (run_cmd P (rm_argv P work_dir) None _ w) as [r0 w0].
    simpl in K0. destruct r0 as [rc| |]; try (intros [= <- <-]; split_and!; done).
    simpl. unfold bind at 1, effect at 1. intros H.
    destruct (Hstages _ _ _ H) as (A & B & C).
    change (sentinels out_dir (mkdir_p work_dir w0)) with (sentinels out_dir w0) in *.
    rewrite K0 in *. done.
  - simpl. unfold bind at 1, effect at 1. intros H.
    destruct (Hstages _ _ _ H) as (A & B & C).
    change (sentinels out_dir (mkdir_p work_dir w)) with (sentinels out_dir w) in *.
    done.
Qed.
(** What a run does once it holds a slot: the body of the [try], then the
    [finally], on whatever the body ended with. *)
Lemma run_in_slot_shape args cfg artifacts_root project slot lk f w r w' :
  fd lk = Some f ->
  run_in_slot P args cfg artifacts_root project slot lk w = (r, w') ->
  let name := slot_name cfg slot in
  let work_dir := slot_work_dir cfg slot in
  let out_dir := run_out_dir P cfg artifacts_root slot w in
  exists r0 body rt tevs,
    w_trace w' = w_trace w ++ body ++ tevs /\
    pipeline_shape P args project name work_dir out_dir r0 body /\
    teardown_shape P args name work_dir out_dir lk rt tevs /\
    r = after_cleanup r0 rt /\
    (rt = Ok tt ->
     w_flocks w' = List.filter (fun e => negb (Nat.eqb (fst e) f)) (w_flocks w)) /\
    (rt <> Ok tt -> w_flocks w' = w_flocks w) /\
    (keeps P (out_dir // "OK") -> keeps P (out_dir // "FAILED") ->
     (r0 = Ok 0 ->
      sentinels out_dir w' = (Some ok_text, snd (sentinels out_dir w))) /\
     (forall rc, rc <> 0 -> r0 = Ok rc ->
      is_Some (snd (sentinels out_dir w')) /\
      fst (sentinels out_dir w') = fst (sentinels out_dir w)) /\
     (forall e, r0 = Raise e -> sentinels out_dir w' = sentinels out_dir w)).
Proof.
  intros Hfd. unfold run_in_slot. simpl.
  change (container_prefix cfg +:+ str_int slot) with (slot_name cfg slot).
  change (state_dir cfg // "slots" // str_int slot // "work")
    with (slot_work_dir cfg slot).
  set (out := run_out_dir P cfg artifacts_root slot w).
  unfold bind, effect, try_finally.
  destruct (pipeline P args project (slot_name cfg slot)
              (slot_work_dir cfg slot) out (mkdir_p out w)) as [r0 w1] eqn:E1.
  destruct (pipeline_shape_run _ _ _ _ _ _ _ _ E1) as (Hf1 & body & Ht1 & Hs1).
  pose proof (pipeline_shape_not_pending _ _ _ _ _ _ _ Hs1) as Hnp.
  simpl in Hf1, Ht1.
  destruct (teardown P args (slot_name cfg slot) (slot_work_dir cfg slot) out lk w1)
    as [rt w2] eqn:E2.
  destruct (teardown_shape_run _ _ _ _ _ _ _ _ _ Hfd E2)
    as ((tevs & Ht2 & Hs2) & Hok & Hnok).
  intros H. assert (Hr : r = after_cleanup r0 rt /\ w' = w2).
  { destruct r0; try done; by injection H as <- <-. }
  destruct Hr as [-> ->].
  exists r0, body, rt, tevs. split_and!; try done.
  - by rewrite Ht2, Ht1, <- app_assoc.
  - intros E. by rewrite Hok, Hf1.
  - intros E. by rewrite Hnok, Hf1.
  - intros K1 K2.
    destruct (pipeline_sentinels _ _ _ _ _ _ _ _ K1 K2 E1) as (A & B & C).
    pose proof (teardown_sentinels args (slot_name cfg slot)
                  (slot_work_dir cfg slot) out lk w1 K1 K2) as T.
    rewrite E2 in T. unfold sentinels in *. simpl in *.
    injection T as T1 T2. rewrite T1, T2. done.
Qed.



Lemma passed_events_In name out_dir idx cmds e :
  In e (passed_events P name out_dir idx cmds) ->
  exists i c, e = cmd_event P name out_dir i c (Some 0).
Proof.
  revert idx. induction cmds as [|c cmds IH]; intros idx; simpl; [done|].
  intros [<-|H]; eauto.
Qed.












(** ** Further properties of the slot lock *)

Lemma filter_fresh_fd (t : list (nat * Path)) (f : nat) (p : Path) :
  (forall e, In e t -> (fst e < f)%nat) ->
  List.filter (fun e => negb (Nat.eqb (fst e) f)) (t ++ [(f, p)]) = t.
Proof.
  intros H. rewrite List.filter_app. simpl. rewrite Nat.eqb_refl. simpl.
  rewrite app_nil_r. induction t as [|e t IH]; simpl; [done|].
  assert (fst e <> f) as Hne by (specialize (H e (or_introl eq_refl)); lia).
  apply Nat.eqb_neq in Hne. rewrite Hne. simpl. f_equal.
  apply IH. intros e' He'. apply H. by right.
Qed.

(** X1. [unlock] is idempotent: a second call finds [fd] at [None] and does
    nothing, as does a call on a lock that was never acquired. Whatever it
    does, it closes the object and leaves directories, files and standard
    output alone; in particular the lock file is never deleted. *)
Theorem unlock_idempotent (lk : SlotLock) (w : World) :
  unlock (fst (unlock lk w)) (snd (unlock lk w)) = unlock lk w /\
  fd (fst (unlock lk w)) = None /\
  lock_path (fst (unlock lk w)) = lock_path lk /\
  (fd lk = None -> unlock lk w = (lk, w)) /\
  w_dirs (snd (unlock lk w)) = w_dirs w /\
  w_files (snd (unlock lk w)) = w_files w /\
  w_stdout (snd (unlock lk w)) = w_stdout w.
Proof.
  unfold unlock. destruct (fd lk) as [f|] eqn:E; simpl; rewrite ?E;
    split_and!; try done.
Qed.

(** X2. A granted [try_lock] followed by [unlock] gives the lock table back as
    it was, so the slot is free again and the next attempt on it is
    granted. The kernel hands out open file descriptions it has not handed
    out before, which the hypothesis on the table says. *)
Theorem try_lock_unlock_roundtrip (p : Path) (w : World) :
  locked p w = false ->
  (forall e, In e (w_flocks w) -> (fst e < w_next_fd w)%nat) ->
  exists lk w1 lk2 w2,
    try_lock (new_lock p) w = (true, lk, w1) /\
    locked p w1 = true /\
    unlock lk w1 = (lk2, w2) /\
    fd lk2 = None /\
    w_flocks w2 = w_flocks w /\
    locked p w2 = false /\
    w_trace w2 = w_trace w ++ [EFlock p true; EUnlock p] /\
    fst (fst (try_lock (new_lock p) w2)) = true.
Proof.
  intros Hfree Hfresh.
  destruct (touch_frame p (mkdir_p (parent p) w)) as (_ & Hf & Ht & Hn & _).
  simpl in Hf, Ht, Hn.
  assert (Htry : try_lock (new_lock p) w
    = (true, mkSlotLock p (Some (w_next_fd w)),
       log_event (EFlock p true)
         (set_flocks (w_flocks w ++ [(w_next_fd w, p)])
            (mkWorld (w_dirs (touch p (mkdir_p (parent p) w)))
                     (w_files (touch p (mkdir_p (parent p) w)))
                     (w_flocks w) (S (w_next_fd w))
                     (w_stdout (touch p (mkdir_p (parent p) w)))
                     (w_trace w))))).
  { unfold try_lock. simpl. rewrite Hf, Ht, Hn.
    change (locked p _) with (locked p w). by rewrite Hfree. }
  rewrite Htry. do 4 eexists. split; [reflexivity|].
  split.
  { unfold locked. simpl. apply bool_decide_eq_true.
    rewrite fmap_app. apply elem_of_app. right. simpl. apply list_elem_of_here. }
  split; [reflexivity|]. simpl.
  rewrite filter_fresh_fd by done.
  split_and!; try done.
  - by rewrite <- app_assoc.
  - match goal with |- fst (fst (try_lock _ ?w2)) = _ =>
      destruct (try_lock_granted p w2) as (f' & w' & -> & _); [|done] end.
    exact Hfree.
Qed.

(** X3. A refused [try_lock] leaves the object closed, so that a later [unlock]
    of it does nothing: it cannot release the lock of the holder, and the
    slot stays held. *)
Theorem refused_lock_cannot_release (p : Path) (w : World) :
  locked p w = true ->
  exists lk w1,
    try_lock (new_lock p) w = (false, lk, w1) /\
    fd lk = None /\
    w_flocks w1 = w_flocks w /\
    unlock lk w1 = (lk, w1) /\
    locked p (snd (unlock lk w1)) = true.
Proof.
  intros H. destruct (try_lock_refused p w H) as (w1 & -> & Hf & _).
  exists (mkSlotLock p None), w1. split_and!; try done.
  simpl. by rewrite (locked_flocks p w).
Qed.

(** X4. [try_lock], granted or refused, only ever adds to the file system: it
    removes no directory, leaves every existing file with its content (the
    lock file too, whose content is irrelevant), creates nothing but the
    lock file and the directories above it, and leaves these in place. *)
Theorem try_lock_only_adds (lk : SlotLock) (w : World) :
  let w' := snd (try_lock lk w) in
  w_dirs w ⊆ w_dirs w' /\
  (forall d, d ∈ w_dirs w' ->
     d ∈ w_dirs w \/ In d (ancestors_and_self (parent (lock_path lk)))) /\
  (forall g c, w_files w !! g = Some c -> w_files w' !! g = Some c) /\
  (forall g, g <> lock_path lk -> w_files w' !! g = w_files w !! g) /\
  lock_file_present (lock_path lk) w' /\
  w_stdout w' = w_stdout w.
Proof.
  set (p := lock_path lk).
  assert (Hfs : w_dirs (snd (try_lock lk w))
                  = w_dirs w ∪ list_to_set (ancestors_and_self (parent p)) /\
                w_files (snd (try_lock lk w))
                  = w_files (touch p (mkdir_p (parent p) w)) /\
                w_stdout (snd (try_lock lk w)) = w_stdout w).
  { destruct (touch_frame p (mkdir_p (parent p) w)) as (Hd & _ & _ & _ & Ho).
    unfold try_lock. fold p. simpl. destruct (locked p _); simpl;
      rewrite Hd, Ho; done. }
  destruct Hfs as (Hd & Hf & Ho). simpl. rewrite Hd, Hf, Ho.
  assert (Htouch : forall g, w_files (touch p (mkdir_p (parent p) w)) !! g
            = match w_files w !! g with
              | Some c => Some c
              | None => if decide (p = g) then Some "" else None
              end).
  { intros g. unfold touch. simpl.
    destruct (w_files w !! p) eqn:E; simpl.
    - destruct (w_files w !! g) eqn:E'; [done|].
      destruct (decide (p = g)) as [<-|]; [congruence|done].
    - rewrite lookup_insert. destruct (decide (p = g)) as [<-|]; [by rewrite E|].
      by destruct (w_files w !! g). }
  split_and!.
  - apply union_subseteq_l.
  - intros d [Hin|Hin]%elem_of_union; [by left|right].
    apply elem_of_list_to_set in Hin. by apply list_elem_of_In.
  - intros g c Hg. by rewrite Htouch, Hg.
  - intros g Hg. rewrite Htouch. destruct (w_files w !! g); [done|].
    destruct (decide (p = g)); [congruence|done].
  - unfold lock_file_present. fold p. rewrite Hf. split.
    + rewrite Htouch. destruct (w_files w !! p); [eauto|].
      destruct (decide (p = p)); [eauto|done].
    + intros d Hin. rewrite Hd. apply elem_of_union_r, elem_of_list_to_set.
      by apply list_elem_of_In.
  - done.
Qed.

(** ** Further properties of the slot manager *)

Lemma try_lock_cases p w :
  let '(ok, lk, w1) := try_lock (new_lock p) w in
  w_next_fd w1 = S (w_next_fd w) /\
  lock_file_present p w1 /\
  (if ok
   then lk = mkSlotLock p (Some (w_next_fd w)) /\
        w_flocks w1 = w_flocks w ++ [(w_next_fd w, p)] /\
        locked p w = false /\ w_trace w1 = w_trace w ++ [EFlock p true]
   else lk = mkSlotLock p None /\ w_flocks w1 = w_flocks w /\
        locked p w = true /\ w_trace w1 = w_trace w ++ [EFlock p false]).
Proof.
  pose proof (try_lock_creates p w) as Hc.
  destruct (touch_frame p (mkdir_p (parent p) w)) as (_ & Hf & Ht & Hn & _).
  simpl in Hf, Ht, Hn. unfold try_lock in *. simpl in *.
  rewrite (locked_flocks p w) in * by (simpl; by rewrite Hf).
  destruct (locked p w) eqn:E; simpl in *; rewrite Hf, Ht, Hn; done.
Qed.

Lemma scan_granted cfg l w s lk w1 :
  scan cfg l w = (Some (s, lk), w1) ->
  In s l /\
  exists f pre,
    lk = mkSlotLock (slot_lock_path cfg s) (Some f) /\
    w_flocks w1 = w_flocks w ++ [(f, slot_lock_path cfg s)] /\
    (w_next_fd w <= f)%nat /\
    lock_file_present (slot_lock_path cfg s) w1 /\
    locked (slot_lock_path cfg s) w = false /\
    w_trace w1 = w_trace w ++ pre ++ [granted cfg s].
Proof.
  revert w. induction l as [|x l IH]; intros w; simpl; [done|].
  change (state_dir cfg // "slots" // str_int x // "slot.lock")
    with (slot_lock_path cfg x).
  pose proof (try_lock_cases (slot_lock_path cfg x) w) as Hc.
  destruct (try_lock (new_lock (slot_lock_path cfg x)) w) as [[ok lk'] w'].
  destruct Hc as (Hn & Hp & Hc). destruct ok.
  - destruct Hc as (-> & Hf & Hl & Ht). intros [= <- <- <-].
    split; [by left|]. exists (w_next_fd w), []. split_and!; try done.
  - destruct Hc as (_ & Hf & Hl & Ht). intros H.
    destruct (IH _ H) as (Hin & f & pre & -> & Hf' & Hle & Hp' & Hl' & Ht').
    split; [by right|]. exists f, (EFlock (slot_lock_path cfg x) false :: pre).
    split_and!; try done.
    + by rewrite Hf', Hf.
    + lia.
    + by rewrite <- (locked_flocks _ w w').
    + rewrite Ht', Ht, <- app_assoc. done.
Qed.

(** X5. What [acquire_slot] returns is a slot of the pool that the caller now
    holds: the index is in 1..slots, the lock object is the one of that
    slot with an open descriptor, the kernel's table holds the lock for
    it, its lock file is in place, and the grant is the last thing the
    call did. *)
Theorem acquire_slot_returns_held_slot (fuel : nat) (cfg : HarnessConfig)
    (wait : bool) (w : World) (slot : Z) (lk : SlotLock) (w1 : World) :
  acquire_slot P fuel cfg wait w = (Ok (slot, lk), w1) ->
  1 <= slot <= slots cfg /\
  lock_path lk = slot_lock_path cfg slot /\
  (exists f, fd lk = Some f /\ In (f, lock_path lk) (w_flocks w1)) /\
  locked (slot_lock_path cfg slot) w1 = true /\
  lock_file_present (slot_lock_path cfg slot) w1 /\
  exists pre, w_trace w1 = pre ++ [granted cfg slot].
Proof.
  revert w. induction fuel as [|fuel IH]; intros w; simpl; [done|].
  destruct (scan cfg (py_range 1 (slots cfg + 1)) w) as [[[s' lk']|] w'] eqn:E.
  - intros [= <- <- <-].
    destruct (scan_granted _ _ _ _ _ _ E)
      as (Hin%py_range_In & f & pre & -> & Hf & _ & Hp & _ & Ht).
    assert (Hin' : In (f, slot_lock_path cfg s') (w_flocks w')).
    { rewrite Hf. apply in_app_iff. right. by left. }
    split_and!.
    + lia.
    + lia.
    + done.
    + eauto.
    + unfold locked. apply bool_decide_eq_true.
      apply list_elem_of_In, in_map_iff. by exists (f, slot_lock_path cfg s').
    + done.
    + exists (w_trace w ++ pre). by rewrite Ht, <- app_assoc.
  - destruct wait; simpl; [apply IH|done].
Qed.

Lemma py_range_empty a b : b <= a -> py_range a b = [].
Proof. intros H. unfold py_range. by replace (Z.to_nat (b - a)) with 0%nat by lia. Qed.

(** X6. An empty pool ([slots] zero or negative) has nothing to scan. Without
    waiting, [acquire_slot] raises at once and touches nothing: no lock is
    tried, no file or directory is made. With waiting it sleeps for ever,
    whatever the other processes do. *)
Theorem acquire_slot_empty_pool (cfg : HarnessConfig) (w : World) :
  slots cfg <= 0 ->
  (forall fuel,
     acquire_slot P (S fuel) cfg false w
     = (Raise (RuntimeError "no free slots available"), w)) /\
  (forall fuel, fst (acquire_slot P fuel cfg true w) = Pending) /\
  (forall fuel wait r, fst (acquire_slot P fuel cfg wait w) <> Ok r).
Proof.
  intros H.
  assert (Hp : forall fuel w0, fst (acquire_slot P fuel cfg true w0) = Pending).
  { induction fuel as [|fuel IH]; intros w0; simpl; [done|].
    rewrite py_range_empty by lia. simpl. apply IH. }
  split_and!.
  - intros fuel. simpl. by rewrite py_range_empty by lia.
  - intros fuel. apply Hp.
  - intros fuel [|] r.
    + by rewrite Hp.
    + destruct fuel; simpl; [done|]. by rewrite py_range_empty by lia.
Qed.

Lemma acquire_slot_wait_pass cfg fuel w :
  all_held cfg w ->
  acquire_slot P (S fuel) cfg true w = acquire_slot P fuel cfg true (wait_pass P cfg w).
Proof.
  intros Hall. simpl. unfold wait_pass.
  destruct (scan_all_refused cfg (py_range 1 (slots cfg + 1)) w)
    as (w' & -> & _).
  { intros s Hs%py_range_In. apply Hall. lia. }
  done.
Qed.

(** X7. Waiting works: when the pool stays full for [n] passes and a slot is
    free at the next one, [acquire_slot] with [wait] set returns the lowest
    free slot of that moment after exactly [n] sleeps, having held nothing
    in between. *)
Theorem acquire_slot_after_waiting (cfg : HarnessConfig) (w : World)
    (n fuel : nat) (k : Z) :
  (forall i, (i < n)%nat -> all_held cfg (Nat.iter i (wait_pass P cfg) w)) ->
  1 <= k <= slots cfg ->
  locked (slot_lock_path cfg k) (Nat.iter n (wait_pass P cfg) w) = false ->
  (forall j, 1 <= j < k ->
     locked (slot_lock_path cfg j) (Nat.iter n (wait_pass P cfg) w) = true) ->
  exists f w',
    acquire_slot P (n + S fuel) cfg true w
      = (Ok (k, mkSlotLock (slot_lock_path cfg k) (Some f)), w') /\
    w_flocks w'
      = w_flocks (Nat.iter n (wait_pass P cfg) w) ++ [(f, slot_lock_path cfg k)] /\
    w_trace w'
      = w_trace (Nat.iter n (wait_pass P cfg) w)
        ++ List.map (refused cfg) (py_range 1 k) ++ [granted cfg k].
Proof.
  revert w. induction n as [|n IH]; intros w Hfull Hk Hfree Hlow.
  - simpl in *.
    rewrite (py_range_split 1 k (slots cfg + 1)) by lia.
    destruct (scan_first_free cfg (py_range 1 k) k
                (py_range (k + 1) (slots cfg + 1)) w) as (f & w' & -> & Hf & Ht).
    { intros s Hs%py_range_In. by apply Hlow. }
    { done. }
    by exists f, w'.
  - replace (S n + S fuel)%nat with (S (n + S fuel)) by lia.
    rewrite acquire_slot_wait_pass by (apply (Hfull 0%nat); lia).
    assert (Hiter : forall m, Nat.iter (S m) (wait_pass P cfg) w
                     = Nat.iter m (wait_pass P cfg) (wait_pass P cfg w)).
    { intros m. induction m as [|m IHm]; [done|]. simpl in *. by rewrite IHm. }
    rewrite Hiter in Hfree, Hlow |- *.
    apply IH; try done.
    intros i Hi. rewrite <- Hiter. apply Hfull. lia.
Qed.

(** ** Further properties of the slot layout *)

Lemma parent_app3 (l : Path) (a b c : string) :
  parent (l ++ [a; b; c]) = l ++ [a; b].
Proof.
  assert (H : removelast (l ++ [a; b; c]) = l ++ [a; b]).
  { change [a; b; c] with ([a; b] ++ [c]). rewrite app_assoc.
    apply removelast_last. }
  destruct l as [|x [|y l]]; try done.
Qed.

(** X8. The layout of a slot: the work directory and the lock file sit
    directly in the slot directory, and the lock file of any slot is
    neither a work directory nor inside one, so that removing or mirroring
    into a work directory never reaches a lock file. Work directories of
    different slots are not nested either. *)
Theorem slot_layout (cfg : HarnessConfig) (i j : Z) :
  parent (slot_work_dir cfg i) = slot_dir cfg i /\
  parent (slot_lock_path cfg i) = slot_dir cfg i /\
  state_dir cfg `prefix_of` slot_dir cfg i /\
  ~ slot_work_dir cfg i `prefix_of` slot_lock_path cfg j /\
  (slot_work_dir cfg i `prefix_of` slot_work_dir cfg j -> i = j).
Proof.
  rewrite !slot_work_dir_parts, !slot_lock_path_parts, !slot_dir_parts.
  split_and!.
  - apply parent_app3.
  - apply parent_app3.
  - by eexists.
  - intros [k Hk]. rewrite <- app_assoc in Hk. apply app_inv_head in Hk.
    simpl in Hk. discriminate Hk.
  - intros [k Hk]. rewrite <- app_assoc in Hk. apply app_inv_head in Hk.
    simpl in Hk. injection Hk as Hk _. symmetry. by apply str_int_inj.
Qed.

(** ** Further properties of configuration loading *)

Lemma int_json_cases v : (exists n, int_json P v = Ok n) \/ (exists e, int_json P v = Raise e).
Proof. destruct v; simpl; eauto; destruct (py_int P _); eauto. Qed.

(** X9. [load_config] succeeds exactly when the file exists, parses to an
    object, [slots] converts with [int], [containerPrefix] is present and
    [stateDir] is a string; the configuration it returns is made of these
    values, with [artifactsDirDefault] taken from the file when it is there
    and ["./artifacts"] otherwise. *)
Theorem load_config_ok_iff (w : World) (cfg : HarnessConfig) :
  fst (load_config P w) = Ok cfg <->
  exists text members vs vp sd,
    w_files w !! CONFIG_PATH = Some text /\
    json_loads P text = Some (JObject members) /\
    dict_lookup "slots" members = Some vs /\
    int_json P vs = Ok (slots cfg) /\
    dict_lookup "containerPrefix" members = Some vp /\
    container_prefix cfg = str_json P vp /\
    dict_lookup "stateDir" members = Some (JString sd) /\
    state_dir cfg = path_of_str sd /\
    artifacts_dir_default cfg
      = str_json P (default (JString "./artifacts")
                            (dict_lookup "artifactsDirDefault" members)).
Proof.
  unfold load_config. split.
  - destruct (w_files w !! CONFIG_PATH) as [text|] eqn:Ef; [|done].
    destruct (json_loads P text) as [data|] eqn:Ej; [|done].
    destruct data as [| | | | | |members]; try done. simpl.
    destruct (dict_lookup "slots" members) as [vs|] eqn:E1; [|done]. simpl.
    destruct (int_json P vs) as [n| |] eqn:E2; try done. simpl.
    destruct (dict_lookup "containerPrefix" members) as [vp|] eqn:E3; [|done].
    simpl.
    destruct (dict_lookup "stateDir" members) as [vd|] eqn:E4; [|done]. simpl.
    destruct vd as [| | | |sd| |]; try done. simpl.
    destruct (dict_lookup "artifactsDirDefault" members) as [va|] eqn:E5;
      simpl; intros [= <-]; exists text, members, vs, vp, sd; simpl;
      split_and!; try done; by rewrite E5.
  - intros (text & members & vs & vp & sd & Hf & Hj & H1 & H2 & H3 & H4 & H5 & H6 & H7).
    rewrite Hf, Hj. simpl. rewrite H1. simpl. rewrite H2. simpl.
    rewrite H3. simpl. rewrite H5. simpl.
    destruct cfg as [n pre dir art]. simpl in *. subst.
    by destruct (dict_lookup "artifactsDirDefault" members).
Qed.

(** X10. Which exception [load_config] raises. The fields are read in the
    order [slots], [containerPrefix], [stateDir], so the [KeyError] names
    the first of them that is missing, and a [slots] that [int] refuses
    raises before the later fields are looked at. A file that does not
    parse raises the decoder's error, a document that is not an object or
    a [stateDir] that is not a string raises [TypeError]. Loading only
    reads: the world is what it was, whatever the outcome. *)
Theorem load_config_errors (w : World) (text : string) :
  w_files w !! CONFIG_PATH = Some text ->
  snd (load_config P w) = w /\
  (json_loads P text = None -> fst (load_config P w) = Raise JSONDecodeError) /\
  (forall data, json_loads P text = Some data ->
     (forall members, data <> JObject members) ->
     fst (load_config P w) = Raise TypeError) /\
  (forall members, json_loads P text = Some (JObject members) ->
     (dict_lookup "slots" members = None ->
      fst (load_config P w) = Raise (KeyError "slots")) /\
     (forall vs e, dict_lookup "slots" members = Some vs ->
        int_json P vs = Raise e -> fst (load_config P w) = Raise e) /\
     (forall vs n, dict_lookup "slots" members = Some vs ->
        int_json P vs = Ok n ->
        (dict_lookup "containerPrefix" members = None ->
         fst (load_config P w) = Raise (KeyError "containerPrefix")) /\
        (forall vp, dict_lookup "containerPrefix" members = Some vp ->
           (dict_lookup "stateDir" members = None ->
            fst (load_config P w) = Raise (KeyError "stateDir")) /\
           (forall vd, dict_lookup "stateDir" members = Some vd ->
              (forall sd, vd <> JString sd) ->
              fst (load_config P w) = Raise TypeError)))).
Proof.
  intros Hf. split; [apply load_config_world|].
  unfold load_config. rewrite Hf. split_and!.
  - by intros ->.
  - intros data -> Hno. destruct data; try done. by destruct (Hno members).
  - intros members ->. simpl. split_and!.
    + by intros ->.
    + intros vs e -> He. simpl. by rewrite He.
    + intros vs n -> Hn. simpl. rewrite Hn. simpl. split.
      * by intros ->.
      * intros vp ->. simpl. split.
        -- by intros ->.
        -- intros vd -> Hns. simpl. destruct vd; try done. by destruct (Hns s).
Qed.

(** ** Further properties of the process runner *)







(** ** Further properties of the command logs *)

Lemma nzhead_no_D0 d d' : Decimal.nzhead d <> Decimal.D0 d'.
Proof. induction d; simpl; try discriminate; auto. Qed.

Lemma pos_to_uint_no_lead_zero p d : Pos.to_uint p <> Decimal.D0 d.
Proof.
  intros H.
  pose proof (DecimalPos.Unsigned.to_of (Pos.to_uint p)) as Hto.
  rewrite DecimalPos.Unsigned.of_to in Hto. simpl in Hto.
  rewrite H, DecimalFacts.unorm_D0 in Hto.
  assert (d = Decimal.Nil) as ->.
  { unfold Decimal.unorm in Hto. pose proof (nzhead_no_D0 d) as Hnz.
    destruct (Decimal.nzhead d); try discriminate Hto;
      [by injection Hto | by destruct (Hnz u)]. }
  by apply (DecimalPos.Unsigned.to_uint_nonzero p).
Qed.

Lemma str_int_lead_zero n s : str_int n = String "0" s -> str_int n = "0".
Proof.
  unfold str_int. destruct n as [|p|p]; simpl; [done| |done].
  rewrite nilzero_nonnil by apply pos_to_uint_nonnil.
  pose proof (pos_to_uint_no_lead_zero p) as H.
  destruct (Pos.to_uint p); simpl; try discriminate. by destruct (H u).
Qed.

Lemma fmt_02d_inj i j : fmt_02d i = fmt_02d j -> i = j.
Proof.
  unfold fmt_02d.
  destruct (String.length (str_int i) <? 2)%nat eqn:Ei;
    destruct (String.length (str_int j) <? 2)%nat eqn:Ej; intros H.
  - apply str_int_inj. by injection H.
  - symmetry in H. apply str_int_lead_zero in H. rewrite H in Ej. done.
  - apply str_int_lead_zero in H. rewrite H in Ei. done.
  - by apply str_int_inj.
Qed.

Lemma append_length (a b : string) :
  String.length (a +:+ b) = (String.length a + String.length b)%nat.
Proof. induction a as [|x a IH]; [done|]. rewrite append_cons. simpl. by rewrite IH. Qed.

Lemma append_inj_l (a b x : string) : a +:+ x = b +:+ x -> a = b.
Proof.
  revert b. induction a as [|c a IH]; intros [|d b] H; try done.
  - apply (f_equal String.length) in H.
    rewrite !append_length in H. simpl in H. lia.
  - apply (f_equal String.length) in H.
    rewrite !append_length in H. simpl in H. lia.
  - rewrite !append_cons in H. injection H as -> H. f_equal. by apply IH.
Qed.

(** X14. Every command of a run has a log file of its own: the name determines
    the index, for every index and not only up to 99, and it is none of
    the other files of the artifacts directory. *)
Theorem cmd_log_injective (out_dir : Path) (i j : Z) :
  (cmd_log out_dir i = cmd_log out_dir j -> i = j) /\
  cmd_log out_dir i <> out_dir // "lifecycle.log" /\
  cmd_log out_dir i <> out_dir // "rsync.log" /\
  cmd_log out_dir i <> out_dir // "OK" /\
  cmd_log out_dir i <> out_dir // "FAILED".
Proof.
  rewrite !cmd_log_parts. split_and!.
  - intros H%app_inv_head. injection H as H.
    apply append_inj_r, append_inj_l in H. by apply fmt_02d_inj.
  - unfold joinpath. simpl. intros H%app_inv_head. discriminate H.
  - unfold joinpath. simpl. intros H%app_inv_head. discriminate H.
  - unfold joinpath. simpl. intros H%app_inv_head. discriminate H.
  - unfold joinpath. simpl. intros H%app_inv_head. discriminate H.
Qed.

(** ** Further properties of the run orchestrator *)

Lemma stages_first_event args project name work_dir out_dir r evs :
  stages_shape P args project name work_dir out_dir r evs ->
  exists rc rest, evs = rsync_event P project work_dir out_dir rc :: rest.
Proof. intros H. inversion H; subst; eauto. Qed.

(** X15. The workspace left by an earlier run is removed first, and only when
    there is one: with a work directory in place the first program of the
    body is [rm -rf] on it and, whatever code it returns, the synchronizer
    comes next; without one the synchronizer is the first program. *)
Theorem stale_workspace_removed_first (args : Args) (project : Path)
    (name : string) (work_dir out_dir : Path) (w : World) (r : result Z)
    (w' : World) :
  pipeline P args project name work_dir out_dir w = (r, w') ->
  exists evs,
    w_trace w' = w_trace w ++ evs /\
    if path_exists work_dir w
    then (evs = [rm_event P work_dir out_dir None] /\
          r = Raise (OSError (rm_argv P work_dir))) \/
         (exists rc0 rc1 rest,
            evs = rm_event P work_dir out_dir (Some rc0)
                    :: rsync_event P project work_dir out_dir rc1 :: rest)
    else exists rc1 rest,
           evs = rsync_event P project work_dir out_dir rc1 :: rest.
Proof.
  unfold pipeline. unfold bind at 1.
  destruct (path_exists work_dir w).
  - unfold bind at 1.
    destruct (run_cmd P (rm_argv P work_dir) None _ w) as [r0 w0] eqn:E0.
    destruct (run_cmd_cases _ _ _ _ _ _ E0) as (_ & _ & [(rc & -> & Ht0)|[-> Ht0]]).
    + simpl. unfold bind at 1, effect at 1. intros H.
      destruct (stages_shape_run _ _ _ _ _ _ _ _ H) as (_ & evs & Ht & Hs).
      destruct (stages_first_event _ _ _ _ _ _ _ Hs) as (rc1 & rest & ->).
      eexists. split; [rewrite Ht; simpl; rewrite Ht0, <- app_assoc; reflexivity|].
      right. by exists rc, rc1, rest.
    + intros [= <- <-]. eexists. split; [exact Ht0|]. by left.
  - simpl. unfold bind at 1, effect at 1. intros H.
    destruct (stages_shape_run _ _ _ _ _ _ _ _ H) as (_ & evs & Ht & Hs).
    destruct (stages_first_event _ _ _ _ _ _ _ Hs) as (rc1 & rest & ->).
    eexists. split; [by rewrite Ht|]. by exists rc1, rest.
Qed.

Lemma known_program_events (evs : list event) :
  (forall e, In e evs ->
     match e with
     | ERun argv lg _ =>
         is_Some lg /\
         exists prog rest,
           In prog ["rm"; "rsync"; "nixos-container"] /\
           argv = (if euid_is_root P then [] else ["sudo"; "--"])
                    ++ prog :: rest
     | _ => True
     end) ->
  forall argv lg rc, In (ERun argv lg rc) evs ->
    is_Some lg /\
    exists prog rest,
      In prog ["rm"; "rsync"; "nixos-container"] /\
      argv = (if euid_is_root P then [] else ["sudo"; "--"]) ++ prog :: rest.
Proof. intros H argv lg rc Hin. exact (H _ Hin). Qed.

Ltac known_program :=
  unfold rsync_event, start_event, stop_event, rm_event, cmd_event,
         rsync_argv, start_argv, stop_argv, rm_argv, run_argv, with_root,
         is_root;
  split; [eauto|];
  do 2 eexists; split; [|destruct (euid_is_root P); reflexivity];
  simpl; tauto.

(** X16. The only programs a run starts are [rm], [rsync] and
    [nixos-container], each through [sudo --] when the runner is not root
    and directly when it is, and each is given a log file of the run for
    its output, never the runner's own standard output. *)
Theorem run_starts_only_known_programs (args : Args) (cfg : HarnessConfig)
    (artifacts_root project : Path) (slot : Z) (lk : SlotLock) (f : nat)
    (w : World) (r : result Z) (w' : World) :
  fd lk = Some f ->
  run_in_slot P args cfg artifacts_root project slot lk w = (r, w') ->
  exists evs,
    w_trace w' = w_trace w ++ evs /\
    forall argv lg rc, In (ERun argv lg rc) evs ->
      is_Some lg /\
      exists prog rest,
        In prog ["rm"; "rsync"; "nixos-container"] /\
        argv = (if euid_is_root P then [] else ["sudo"; "--"]) ++ prog :: rest.
Proof.
  intros Hfd Hrun.
  destruct (run_in_slot_shape _ _ _ _ _ _ _ _ _ _ Hfd Hrun)
    as (r0 & body & rt & tevs & Ht & Hp & Htd & _).
  exists (body ++ tevs). split; [done|].
  apply known_program_events. intros e [Hin|Hin]%in_app_iff.
  - assert (Hcmds : forall r evs, commands_shape P (slot_name cfg slot)
              (run_out_dir P cfg artifacts_root slot w) (arg_cmd args) r evs ->
              forall e, In e evs ->
              match e with
              | ERun argv lg _ =>
                  is_Some lg /\
                  exists prog rest,
                    In prog ["rm"; "rsync"; "nixos-container"] /\
                    argv = (if euid_is_root P then [] else ["sudo"; "--"])
                             ++ prog :: rest
              | _ => True
              end).
    { intros r' evs' Hc e' Hin'. inversion Hc; subst;
        apply in_app_iff in Hin' as [Hin'|Hin'];
        try (apply passed_events_In in Hin' as (? & ? & ->); known_program);
        simpl in Hin'; decompose [or] Hin'; subst; try done; known_program. }
    assert (Hst : forall r evs, stages_shape P args project (slot_name cfg slot)
              (slot_work_dir cfg slot)
              (run_out_dir P cfg artifacts_root slot w) r evs ->
              forall e, In e evs ->
              match e with
              | ERun argv lg _ =>
                  is_Some lg /\
                  exists prog rest,
                    In prog ["rm"; "rsync"; "nixos-container"] /\
                    argv = (if euid_is_root P then [] else ["sudo"; "--"])
                             ++ prog :: rest
              | _ => True
              end).
    { intros r' evs' Hs e' Hin'. inversion Hs as [| | | |? ? Hc]; subst;
        simpl in Hin'; decompose [or] Hin'; subst; try done;
        try known_program.
      by apply (Hcmds _ _ Hc). }
    inversion Hp as [|? ? ? Hs|? ? Hs]; subst.
    + simpl in Hin. decompose [or] Hin; subst; try done. known_program.
    + destruct Hin as [<-|Hin]; [known_program|]. by apply (Hst _ _ Hs).
    + by apply (Hst _ _ Hs).
  - inversion Htd; subst; simpl in Hin; decompose [or] Hin; subst; try done;
      known_program.
Qed.

(** X17. A configuration that cannot be loaded ends [main] before anything
    else happens: the exception of [load_config] is the outcome, no lock
    is tried and the world is untouched. *)
Theorem main_config_error (fuel : nat) (args : Args) (w : World) (e : exn) :
  fst (load_config P w) = Raise e ->
  main P fuel args w = (Raise e, w).
Proof.
  intros H. unfold main, bind.
  pose proof (load_config_world w) as Hw.
  destruct (load_config P w) as [r w0]. simpl in *. by subst.
Qed.



(** X19. A run that gets its slot in the first pass and returns a code leaves
    the kernel's lock table exactly as it found it: the lock it took is
    the one it gave back, and giving it back is the last thing it did.
    The kernel hands out open file descriptions it has not handed out
    before, which the hypothesis on the table says. *)
Theorem main_releases_what_it_took (args : Args) (w : World) (rc : Z)
    (w' : World) :
  (forall e, In e (w_flocks w) -> (fst e < w_next_fd w)%nat) ->
  main P 1 args w = (Ok rc, w') ->
  w_flocks w' = w_flocks w /\
  exists cfg slot pre pre',
    fst (load_config P w) = Ok cfg /\
    1 <= slot <= slots cfg /\
    w_trace w' = w_trace w ++ pre ++ granted cfg slot :: pre'
                 ++ [EUnlock (slot_lock_path cfg slot)].
Proof.
  intros Hfresh. unfold main, bind.
  pose proof (load_config_world w) as Hw.
  destruct (load_config P w) as [[cfg|e|] w0]; simpl in Hw; subst; try done.
  simpl.
  destruct (scan cfg (py_range 1 (slots cfg + 1)) w) as [[[s lk]|] w1] eqn:Es.
  2:{ by destruct (negb (negb (arg_no_wait args))). }
  destruct (scan_granted _ _ _ _ _ _ Es)
    as (Hin%py_range_In & f & pre & -> & Hf & Hle & _ & _ & Ht).
  simpl. intros Hrun.
  destruct (run_in_slot_shape args cfg _ _ s
              (mkSlotLock (slot_lock_path cfg s) (Some f)) f w1 (Ok rc) w'
              eq_refl Hrun)
    as (r0 & body & rt & tevs & Ht' & Hp & Htd & Hr & Hok & _).
  assert (rt = Ok tt) as ->.
  { inversion Htd; subst; simpl in Hr; done. }
  split.
  - rewrite Hok by done. rewrite Hf. apply filter_fresh_fd.
    intros e He. specialize (Hfresh e He). lia.
  - exists cfg, s, pre. 
    assert (exists tevs', tevs = tevs' ++ [EUnlock (slot_lock_path cfg s)])
      as [tevs' ->].
    { inversion Htd; subst.
      - by eexists [_].
      - by eexists [_; _]. }
    exists (body ++ tevs'). split; [done|]. split; [lia|].
    rewrite Ht', Ht. rewrite <- !app_assoc. simpl. reflexivity.
Qed.

(** ** Further properties of the pool *)

Lemma table_owned_release cfg w l1 h l2 w' f :
  sys_inv cfg (mkSystem w (l1 ++ h :: l2)) ->
  table_owned cfg (mkSystem w (l1 ++ h :: l2)) ->
  fd (h_lock h) = Some f ->
  w_flocks w' = List.filter (fun e => negb (Nat.eqb (fst e) f)) (w_flocks w) ->
  table_owned cfg (mkSystem w' (l1 ++ l2)).
Proof.
  intros Hinv Hown Hfd Hw f' p Hin. simpl in *. rewrite Hw in Hin.
  apply filter_In in Hin as [Hin Hne]. simpl in Hne.
  apply negb_true_iff, Nat.eqb_neq in Hne.
  destruct (Hown f' p Hin) as (h' & Hh' & Hlk & Hp). simpl in Hh'.
  exists h'. split_and!; try done.
  apply in_app_iff in Hh' as [?|[<-|?]]; apply in_app_iff; auto.
  rewrite Hlk in Hfd. simpl in Hfd. congruence.
Qed.

Lemma table_owned_step cfg s s' :
  sys_inv cfg s -> table_owned cfg s -> sys_step cfg s s' ->
  table_owned cfg s'.
Proof.
  intros Hinv Hown Hstep. destruct Hstep as
    [pid slot w live ok lk w' Hr Htry | w l1 h l2 | w l1 h l2 | w w' live Hf Hn].
  - pose proof (try_lock_cases (slot_lock_path cfg slot) w) as Hc.
    rewrite Htry in Hc. destruct Hc as (_ & _ & Hc).
    intros f p Hin. simpl in *. destruct ok.
    + destruct Hc as (-> & Hfl & _). rewrite Hfl in Hin.
      apply in_app_iff in Hin as [Hin|[[= <- <-]|[]]].
      * destruct (Hown f p Hin) as (h & Hh & Hlk & Hp).
        exists h. split_and!; try done. apply in_app_iff. by left.
      * eexists. split; [apply in_app_iff; right; by left|]. done.
    + destruct Hc as (_ & Hfl & _). rewrite Hfl in Hin. by apply Hown.
  - destruct (inv_live cfg _ Hinv h) as (_ & f & Hlk & _); [apply in_elt|].
    apply (table_owned_release cfg w l1 h l2 _ f); try done.
    + by rewrite Hlk.
    + unfold unlock. by rewrite Hlk.
  - destruct (inv_live cfg _ Hinv h) as (_ & f & Hlk & _); [apply in_elt|].
    apply (table_owned_release cfg w l1 h l2 _ f); try done.
    + by rewrite Hlk.
    + unfold close_fd. by rewrite Hlk.
  - intros f p Hin. simpl in *. rewrite Hf in Hin. by apply Hown.
Qed.

Lemma table_owned_rtc cfg s s' :
  sys_inv cfg s -> table_owned cfg s -> rtc (sys_step cfg) s s' ->
  table_owned cfg s'.
Proof.
  intros Hinv Hown Hrtc. induction Hrtc as [s|s1 s2 s3 Hstep _ IH]; [done|].
  apply IH.
  - by apply (sys_step_inv cfg s1).
  - by apply (table_owned_step cfg s1).
Qed.

(** X20. No slot is ever lost. On the host of any interleaving of tries,
    unlocks and process deaths, the kernel holds no lock without a live
    [SlotLock] behind it: a slot of the pool that no live lock is for is
    free, and the next [try_lock] on it is granted. *)
Theorem free_slot_can_be_acquired (cfg : HarnessConfig) (s0 s : System)
    (slot : Z) :
  sys_initial s0 ->
  rtc (sys_step cfg) s0 s ->
  (forall h, In h (sys_live s) -> h_slot h <> slot) ->
  table_owned cfg s /\
  locked (slot_lock_path cfg slot) (sys_world s) = false /\
  fst (fst (try_lock (new_lock (slot_lock_path cfg slot)) (sys_world s))) = true.
Proof.
  intros H0 Hrtc Hfree.
  assert (Hown : table_owned cfg s).
  { apply (table_owned_rtc cfg s0); [by apply sys_inv_initial| |done].
    intros f p Hin. destruct H0 as [H0 _]. by rewrite H0 in Hin. }
  assert (Hl : locked (slot_lock_path cfg slot) (sys_world s) = false).
  { unfold locked. apply bool_decide_eq_false.
    intros Hin%list_elem_of_In%in_map_iff. destruct Hin as ([f p] & Ep & Hin).
    simpl in Ep. subst p.
    destruct (Hown f _ Hin) as (h & Hh & _ & Hp).
    apply slot_lock_path_inj in Hp. by apply (Hfree h Hh). }
  split_and!; try done.
  by destruct (try_lock_granted _ _ Hl) as (f & w' & -> & _).
Qed.

End Proofs.

(** ** The embedding on concrete values *)

Example str_int_examples :
  str_int 0 = "0" /\ str_int 42 = "42" /\ str_int (-7) = "-7".
Proof. split_and!; reflexivity. Qed.

Example fmt_02d_examples :
  fmt_02d 1 = "01" /\ fmt_02d 12 = "12" /\ fmt_02d 100 = "100".
Proof. split_and!; reflexivity. Qed.

Example path_examples :
  path_of_str "/etc/devenv-harness/config.json"
    = ["/"; "etc"; "devenv-harness"; "config.json"] /\
  path_of_str "./artifacts" = ["artifacts"] /\
  path_of_str "." = [] /\
  str_path [] = "." /\
  str_path ["/"; "var"; "lib"] = "/var/lib" /\
  ["/"; "var"] // "lib/harness" = ["/"; "var"; "lib"; "harness"] /\
  ["/"; "var"] // "/srv" = ["/"; "srv"] /\
  parent ["/"; "var"; "slot.lock"] = ["/"; "var"].
Proof. split_and!; reflexivity. Qed.

Example slot_paths_example :
  slot_paths (mkConfig 3 "dev" ["/"; "var"; "lib"; "harness"] "./artifacts") 2
  = ("dev2",
     ["/"; "var"; "lib"; "harness"; "slots"; "2"],
     ["/"; "var"; "lib"; "harness"; "slots"; "2"; "work"],
     ["/"; "var"; "lib"; "harness"; "slots"; "2"; "slot.lock"]).
Proof. reflexivity. Qed.

Example readlines_example :
  readlines ("A" +:+ String newline ("B" +:+ String newline "tail"))
  = ["A" +:+ String newline ""; "B" +:+ String newline ""; "tail"].
Proof. reflexivity. Qed.

Example py_range_example : py_range 1 (3 + 1) = [1; 2; 3] /\ py_range 1 (0 + 1) = [].
Proof. split; reflexivity. Qed.

(** ** The theorems at work on the example host *)

Import Demo.

Lemma slot_paths_injective_witness :
  slot_paths cfg 1 = slot_paths cfg 1 /\
  slot_dir cfg 1 <> slot_dir cfg 2 /\
  slot_lock_path cfg 1 <> slot_lock_path cfg 2.
Proof.
  split_and!.
  - exact (proj1 (slot_paths_injective cfg 1 1) eq_refl).
  - intros E.
    pose proof (proj1 (proj2 (proj2 (slot_paths_injective cfg 1 2))) E) as H.
    discriminate H.
  - intros E.
    pose proof (proj2 (proj2 (proj2 (proj2 (slot_paths_injective cfg 1 2)))) E)
      as H.
    discriminate H.
Defined.


Lemma load_config_required_fields_witness :
  fst (load_config (host all_fine) empty_world)
    = Raise (FileNotFoundError CONFIG_PATH) /\
  (exists e, fst (load_config (host all_fine) unconfigured_world) = Raise e) /\
  fst (load_config (host all_fine) fresh_world) = Ok cfg.
Proof.
  split_and!.
  - exact (proj1 (load_config_required_fields (host all_fine) empty_world)
             eq_refl).
  - apply (proj1 (proj2 (load_config_required_fields (host all_fine)
                           unconfigured_world))
             "{}" [] "stateDir").
    + reflexivity.
    + reflexivity.
    + simpl. tauto.
    + reflexivity.
  - apply (proj2 (proj2 (load_config_required_fields (host all_fine)
                           fresh_world))
             config_text config_members (JInt 2) 2 (JString "dev")
             "/var/lib/harness").
    + reflexivity.
    + reflexivity.
    + reflexivity.
    + reflexivity.
    + reflexivity.
    + reflexivity.
    + reflexivity.
Defined.

(** C8 does not hold as stated: without [artifactsDirDefault] in the file,
    [load_config] returns a configuration and does not raise. *)
Lemma load_config_default_counterexample :
  json_loads (host all_fine) config_text = Some config_json /\
  dict_lookup "artifactsDirDefault" config_members = None /\
  load_config (host all_fine) fresh_world = (Ok cfg, fresh_world) /\
  ~ (exists e, fst (load_config (host all_fine) fresh_world) = Raise e).
Proof.
  split_and!; [reflexivity..|].
  intros [e H]. vm_compute in H. discriminate H.
Qed.


Lemma both_held_all_held : all_held cfg both_held.
Proof.
  intros j Hj. change (slots cfg) with 2 in Hj.
  assert (j = 1 \/ j = 2) as [-> | ->] by lia; vm_compute; reflexivity.
Qed.

Lemma both_held_lock_files j :
  1 <= j <= slots cfg -> lock_file_present (slot_lock_path cfg j) both_held.
Proof.
  intros Hj. change (slots cfg) with 2 in Hj.
  assert (j = 1 \/ j = 2) as [-> | ->] by lia.
  all: split;
    [ vm_compute; eauto
    | intros d Hd; vm_compute in Hd;
      repeat (destruct Hd as [<- | Hd];
              [compute_done|]);
      destruct Hd ].
Qed.



Lemma no_wait_all_held_no_mutation_witness :
  exists w',
    main (host all_fine) 1 (args ["true"] true false) both_held
      = (Raise (RuntimeError "no free slots available"), w') /\
    w_dirs w' = w_dirs both_held /\ w_files w' = w_files both_held.
Proof.
  destruct (no_wait_all_held_no_mutation (host all_fine)
              (args ["true"] true false) cfg both_held 0)
    as (w' & H1 & H2 & H3 & _).
  - reflexivity.
  - vm_compute. reflexivity.
  - exact both_held_all_held.
  - exact both_held_lock_files.
  - by exists w'.
Defined.


Lemma fresh_acquires (P : Platform) :
  acquire_slot P 1 cfg (negb (arg_no_wait three_cmds)) fresh_world
  = (Ok (1, mkSlotLock lock1 (Some 3%nat)), slot1_world P).
Proof. vm_compute. reflexivity. Qed.








(** The scenario of the specification: of ["echo A"; "false"; "echo C"]
    the third command never runs, [FAILED] names index 2 and the status
    is 1. *)
Example scenario_second_command_fails :
  fst (script (host shell) 1 three_cmds fresh_world) = Some 1 /\
  sentinels out1 (snd (script (host shell) 1 three_cmds fresh_world))
    = (None, Some (failed_text 2 "false" 1)) /\
  content (out1 ++ ["cmd-01.log"])
          (snd (script (host shell) 1 three_cmds fresh_world))
    = "A" +:+ String newline "" /\
  w_files (snd (script (host shell) 1 three_cmds fresh_world))
    !! (out1 ++ ["cmd-03.log"]) = None /\
  w_flocks (snd (script (host shell) 1 three_cmds fresh_world)) = [].
Proof. split_and!; vm_compute; reflexivity. Qed.

(** ** The further properties at work on the example host *)

Lemma unlock_idempotent_witness :
  fd (fst (unlock (mkSlotLock lock1 (Some 3%nat)) one_held)) = None /\
  unlock (new_lock lock1) one_held = (new_lock lock1, one_held).
Proof.
  split.
  - exact (proj1 (proj2 (unlock_idempotent (mkSlotLock lock1 (Some 3%nat))
                           one_held))).
  - exact (proj1 (proj2 (proj2 (proj2 (unlock_idempotent (new_lock lock1)
                                         one_held)))) eq_refl).
Defined.

Lemma try_lock_unlock_roundtrip_witness :
  exists lk w1 lk2 w2,
    try_lock (new_lock lock1) fresh_world = (true, lk, w1) /\
    unlock lk w1 = (lk2, w2) /\
    w_flocks w2 = w_flocks fresh_world.
Proof.
  destruct (try_lock_unlock_roundtrip lock1 fresh_world)
    as (lk & w1 & lk2 & w2 & H1 & _ & H3 & _ & H5 & _).
  - vm_compute. reflexivity.
  - intros e He. destruct He.
  - by exists lk, w1, lk2, w2.
Defined.

Lemma refused_lock_cannot_release_witness :
  exists lk w1,
    try_lock (new_lock lock1) one_held = (false, lk, w1) /\
    unlock lk w1 = (lk, w1).
Proof.
  destruct (refused_lock_cannot_release lock1 one_held)
    as (lk & w1 & H1 & _ & _ & H4 & _).
  - vm_compute. reflexivity.
  - by exists lk, w1.
Defined.

Lemma try_lock_only_adds_witness :
  lock_file_present lock1 (snd (try_lock (new_lock lock1) fresh_world)) /\
  w_files (snd (try_lock (new_lock lock1) fresh_world)) !! CONFIG_PATH
    = Some config_text.
Proof.
  destruct (try_lock_only_adds (new_lock lock1) fresh_world)
    as (_ & _ & H3 & _ & H5 & _).
  split; [exact H5|]. apply H3. reflexivity.
Defined.

Lemma acquire_slot_returns_held_slot_witness :
  1 <= 1 <= slots cfg /\
  locked (slot_lock_path cfg 1) (slot1_world (host all_fine)) = true.
Proof.
  destruct (acquire_slot_returns_held_slot (host all_fine) 1 cfg
              (negb (arg_no_wait three_cmds)) fresh_world 1
              (mkSlotLock lock1 (Some 3%nat)) (slot1_world (host all_fine))
              (fresh_acquires (host all_fine)))
    as (H1 & _ & _ & H4 & _).
  by split.
Defined.

Lemma acquire_slot_empty_pool_witness :
  acquire_slot (host all_fine) 1 empty_pool false fresh_world
  = (Raise (RuntimeError "no free slots available"), fresh_world).
Proof.
  apply (proj1 (acquire_slot_empty_pool (host all_fine) empty_pool
                  fresh_world ltac:(simpl; lia))).
Defined.

Lemma acquire_slot_after_waiting_witness :
  exists f w',
    acquire_slot releasing_host 2 cfg true both_held
    = (Ok (1, mkSlotLock (slot_lock_path cfg 1) (Some f)), w').
Proof.
  destruct (acquire_slot_after_waiting releasing_host cfg both_held 1 0 1)
    as (f & w' & H & _).
  - intros i Hi. assert (i = 0%nat) as -> by lia. exact both_held_all_held.
  - change (slots cfg) with 2. lia.
  - vm_compute. reflexivity.
  - intros j Hj. lia.
  - by exists f, w'.
Defined.

Lemma slot_layout_witness :
  parent (slot_lock_path cfg 1) = slot_dir cfg 1 /\
  ~ slot_work_dir cfg 1 `prefix_of` slot_lock_path cfg 2 /\
  ~ slot_work_dir cfg 1 `prefix_of` slot_work_dir cfg 2.
Proof.
  destruct (slot_layout cfg 1 2) as (_ & H2 & _ & H4 & H5).
  split_and!; [exact (proj1 (proj2 (slot_layout cfg 1 1))) | exact H4 |].
  intros H. apply H5 in H. discriminate H.
Defined.

Lemma load_config_ok_iff_witness :
  exists text members vs vp sd,
    w_files fresh_world !! CONFIG_PATH = Some text /\
    json_loads (host all_fine) text = Some (JObject members) /\
    dict_lookup "slots" members = Some vs /\
    int_json (host all_fine) vs = Ok (slots cfg) /\
    dict_lookup "containerPrefix" members = Some vp /\
    container_prefix cfg = str_json (host all_fine) vp /\
    dict_lookup "stateDir" members = Some (JString sd) /\
    state_dir cfg = path_of_str sd /\
    artifacts_dir_default cfg
      = str_json (host all_fine)
          (default (JString "./artifacts")
                   (dict_lookup "artifactsDirDefault" members)).
Proof.
  apply (proj1 (load_config_ok_iff (host all_fine) fresh_world cfg)).
  vm_compute. reflexivity.
Defined.

Lemma load_config_errors_witness :
  snd (load_config (host all_fine) unconfigured_world) = unconfigured_world /\
  fst (load_config (host all_fine) unconfigured_world) = Raise (KeyError "slots").
Proof.
  destruct (load_config_errors (host all_fine) unconfigured_world "{}" eq_refl)
    as (H1 & _ & _ & H4).
  split; [exact H1|].
  exact (proj1 (H4 [] eq_refl) eq_refl).
Defined.




Lemma cmd_log_injective_witness :
  cmd_log out1 1 <> cmd_log out1 100 /\
  cmd_log out1 1 <> out1 // "lifecycle.log".
Proof.
  destruct (cmd_log_injective out1 1 100) as (H1 & H2 & _).
  split; [|exact H2]. intros E. apply H1 in E. discriminate E.
Defined.

Lemma stale_workspace_removed_first_witness :
  exists evs,
    w_trace (snd (pipeline (host shell) three_cmds [] "dev1"
                    (slot_work_dir cfg 1) out1 fresh_world))
    = w_trace fresh_world ++ evs.
Proof.
  destruct (stale_workspace_removed_first (host shell) three_cmds [] "dev1"
              (slot_work_dir cfg 1) out1 fresh_world _ _
              (surjective_pairing _)) as (evs & H & _).
  by exists evs.
Defined.

Lemma run_starts_only_known_programs_witness :
  exists evs,
    w_trace (snd (run_in_slot (host shell) three_cmds cfg ["artifacts"] [] 1
                    (mkSlotLock lock1 (Some 3%nat))
                    (slot1_world (host shell))))
    = w_trace (slot1_world (host shell)) ++ evs.
Proof.
  destruct (run_starts_only_known_programs (host shell) three_cmds cfg
              ["artifacts"] [] 1 (mkSlotLock lock1 (Some 3%nat)) 3
              (slot1_world (host shell)) _ _ eq_refl (surjective_pairing _))
    as (evs & H & _).
  by exists evs.
Defined.

Lemma main_config_error_witness :
  main (host all_fine) 1 three_cmds empty_world
  = (Raise (FileNotFoundError CONFIG_PATH), empty_world).
Proof.
  apply (main_config_error (host all_fine) 1 three_cmds empty_world).
  reflexivity.
Defined.


Lemma main_releases_what_it_took_witness :
  w_flocks (snd (main (host shell) 1 three_cmds fresh_world))
  = w_flocks fresh_world.
Proof.
  apply (proj1 (main_releases_what_it_took (host shell) three_cmds fresh_world
                  1 (snd (main (host shell) 1 three_cmds fresh_world))
                  ltac:(intros e He; destruct He)
                  ltac:(vm_compute; reflexivity))).
Defined.

Lemma free_slot_can_be_acquired_witness :
  locked (slot_lock_path cfg 2) one_held = false.
Proof.
  assert (H0 : sys_initial (mkSystem fresh_world [])) by (split; reflexivity).
  assert (Hstep : sys_step cfg (mkSystem fresh_world [])
            (mkSystem one_held [mkHolder 7 1 (mkSlotLock lock1 (Some 3%nat))])).
  { apply (step_try cfg 7 1 fresh_world [] true
             (mkSlotLock lock1 (Some 3%nat)) one_held);
      [change (slots cfg) with 2; lia | vm_compute; reflexivity]. }
  refine (proj1 (proj2 (free_slot_can_be_acquired cfg _ _ 2 H0
                          (rtc_once _ _ Hstep) _))).
  intros h [<-|[]]. simpl. lia.
Defined.
